(** * Superstore dashboard: the filtering and aggregation pipeline

    A shallow embedding of [Task5_Dashboard.py].  The script reads a CSV
    into a pandas frame [df], builds a boolean mask from four sidebar
    controls, selects [filtered_df] and derives one small table per chart.

    Modelling choices, all of them local to this file:
    - a frame is the list of its rows, in index order;
    - every cell is optional: [None] is pandas' missing value (NaN / NaT);
    - labels are [string]s; the file is read as latin1, one byte per
      character, so byte order is code point order;
    - an amount is a whole number; the code holds it in a float64 (or an
      int64) and adds with rounding (or wrap-around), the model adds in
      [Z].  The two agree on a column when [exact_amounts] holds of it,
      and every statement that compares sums taken over different
      groupings or in different orders assumes it;
    - an order date is an instant, a calendar day and a time of day; the
      date control returns days, which the mask takes at midnight;
    - a raised exception leaves the store as it is; of the chart calls,
      the one that checks its data is modelled: the scatter plot refuses
      a missing or negative marker size. *)

From Stdlib Require Import String Ascii ZArith QArith Bool Lia List.
From Stdlib Require Import Permutation Sorted.
From Stdlib Require OrderedTypeEx.
Import ListNotations.

Local Open Scope Z_scope.
Local Open Scope list_scope.

(** ** Days and timestamps *)

(** A calendar day, as [st.date_input] returns it. *)
Record Date := mkDate { year : Z; month : Z; day : Z }.

Definition date_compare (a b : Date) : comparison :=
  match year a ?= year b with
  | Eq => match month a ?= month b with
          | Eq => day a ?= day b
          | c => c
          end
  | c => c
  end.

Definition date_leb (a b : Date) : bool :=
  match date_compare a b with Gt => false | _ => true end.

Definition date_le (a b : Date) : Prop := date_compare a b <> Gt.
Definition date_lt (a b : Date) : Prop := date_compare a b = Lt.

(** A cell of a column read with [parse_dates]: a day and the time elapsed
    since its midnight. *)
Record Timestamp := mkTimestamp { date : Date; clock : N }.

(** [pd.to_datetime(d)] of a day: its midnight. *)
Definition midnight (d : Date) : Timestamp := {| date := d; clock := 0 |}.

Definition ts_compare (a b : Timestamp) : comparison :=
  match date_compare (date a) (date b) with
  | Eq => (clock a ?= clock b)%N
  | c => c
  end.

(** [a <= b] on timestamps, as the mask evaluates it. *)
Definition ts_leb (a b : Timestamp) : bool :=
  match ts_compare a b with Gt => false | _ => true end.


(** ** Rows and frames *)

Record Row := mkRow {
  Order_ID      : option string;
  Order_Date    : option Timestamp;
  Region        : option string;
  Segment       : option string;
  Category      : option string;
  Sub_Category  : option string;
  Ship_Mode     : option string;
  State         : option string;
  Sales         : option Z;
  Profit        : option Z;
  Discount      : option Z;
  Shipping_Cost : option Z
}.

Definition DataFrame := list Row.

(** ** Sidebar controls

    The three multiselects return lists of labels, the date input the two
    ends of the chosen range. *)

Record Predicate := mkPredicate {
  region     : list string;
  segment    : list string;
  category   : list string;
  date_range : Date * Date
}.

(** ** Column operations used by the mask *)

(** [Series.isin(values)]: a missing cell is in no list of labels. *)
Definition isin (c : option string) (values : list string) : bool :=
  match c with
  | None => false
  | Some s => existsb (String.eqb s) values
  end.

(** [Series >= t]: a comparison with NaT is False. *)
Definition ge_ts (c : option Timestamp) (t : Timestamp) : bool :=
  match c with
  | None => false
  | Some d => ts_leb t d
  end.

(** [Series <= t]. *)
Definition le_ts (c : option Timestamp) (t : Timestamp) : bool :=
  match c with
  | None => false
  | Some d => ts_leb d t
  end.

(** The conjunction of lines 30-34. *)
Definition mask (P : Predicate) (r : Row) : bool :=
  isin (Region r) (region P) &&
  isin (Segment r) (segment P) &&
  isin (Category r) (category P) &&
  ge_ts (Order_Date r) (midnight (fst (date_range P))) &&
  le_ts (Order_Date r) (midnight (snd (date_range P))).

(** [filtered_df = df[mask]] (the specification's [applyFilter]). *)
Definition filtered_df (df : DataFrame) (P : Predicate) : DataFrame :=
  filter (mask P) df.

(** ** The filter predicate as the specification words it *)

Definition member (c : option string) (values : list string) : Prop :=
  exists s, c = Some s /\ In s values.



(** [Subseq s l]: [s] is obtained from [l] by deleting rows, the others
    keeping their relative order. *)
Inductive Subseq {A : Type} : list A -> list A -> Prop :=
| Subseq_nil : Subseq [] []
| Subseq_keep : forall x s l, Subseq s l -> Subseq (x :: s) (x :: l)
| Subseq_drop : forall x s l, Subseq s l -> Subseq s (x :: l).

(** ** Series reductions *)

(** [Series.dropna()]. *)
Fixpoint dropna {A : Type} (l : list (option A)) : list A :=
  match l with
  | [] => []
  | Some x :: l' => x :: dropna l'
  | None :: l' => dropna l'
  end.

(** [Series.sum()]: missing cells are skipped, the empty sum is 0. *)
Fixpoint sum_skipna (l : list (option Z)) : Z :=
  match l with
  | [] => 0
  | Some v :: l' => v + sum_skipna l'
  | None :: l' => sum_skipna l'
  end.

(** [Series.mean()]: the mean of the cells present; NaN ([None]) when there
    is none. *)
Definition mean (l : list (option Z)) : option Q :=
  match dropna l with
  | [] => None
  | v :: vs => Some (Qmake (sum_skipna l) (Pos.of_nat (List.length (v :: vs))))
  end.

Section Labels.
Context {K : Type} (eqb leb : K -> K -> bool).

Definition mem (k : K) (l : list K) : bool := existsb (eqb k) l.

Fixpoint unique_from (seen : list K) (l : list K) : list K :=
  match l with
  | [] => []
  | k :: l' =>
      if mem k seen then unique_from seen l'
      else k :: unique_from (k :: seen) l'
  end.

(** [Series.unique()]: distinct values in order of first appearance. *)
Definition unique (l : list K) : list K := unique_from [] l.

Fixpoint insert_label (k : K) (l : list K) : list K :=
  match l with
  | [] => [k]
  | x :: l' => if leb k x then k :: x :: l' else x :: insert_label k l'
  end.

(** Ascending order of the group labels ([sort=True]). *)
Fixpoint sort_labels (l : list K) : list K :=
  match l with
  | [] => []
  | k :: l' => insert_label k (sort_labels l')
  end.

(** [True] when some label occurs twice. *)
Fixpoint has_duplicates (l : list K) : bool :=
  match l with
  | [] => false
  | k :: l' => mem k l' || has_duplicates l'
  end.

Context {R : Type}.

Definition key_is (key : R -> option K) (k : K) (r : R) : bool :=
  match key r with
  | Some k' => eqb k' k
  | None => false
  end.

(** The labels of the groups: rows with a missing key form no group
    ([dropna=True]), the others are grouped by label, labels ascending. *)
Definition group_keys (key : R -> option K) (rows : list R) : list K :=
  sort_labels (unique (dropna (map key rows))).

Definition group_total (key : R -> option K) (val : R -> option Z)
    (rows : list R) (k : K) : Z :=
  sum_skipna (map val (filter (key_is key k) rows)).

(** [rows.groupby(key)[val].sum().reset_index()]: one row per group. *)
Definition groupby_sum (key : R -> option K) (val : R -> option Z)
    (rows : list R) : list (K * Z) :=
  map (fun k => (k, group_total key val rows k)) (group_keys key rows).
End Labels.

(** [Series.nunique()]. *)
Definition nunique (l : list (option string)) : nat :=
  List.length (unique String.eqb (dropna l)).

(** Pairs of labels, ordered first label first. *)
Definition pair_eqb (a b : string * string) : bool :=
  String.eqb (fst a) (fst b) && String.eqb (snd a) (snd b).

Definition pair_leb (a b : string * string) : bool :=
  if String.eqb (fst a) (fst b) then String.leb (snd a) (snd b)
  else String.leb (fst a) (fst b).

(** The key of a two-column [groupby]: missing when either cell is. *)
Definition key2 (k1 k2 : Row -> option string) (r : Row)
    : option (string * string) :=
  match k1 r, k2 r with
  | Some a, Some b => Some (a, b)
  | _, _ => None
  end.

(** ** Ordering a grouped series by value

    [Series.sort_values(ascending=False)] is called with the default
    [kind]: the result holds the same entries, largest value first, and
    pandas promises nothing more about entries of equal value.  The
    development is parametric in such a sort. *)

Definition value_geb (a b : string * Z) : Prop := snd b <= snd a.

Class SortKind := {
  sort_values : list (string * Z) -> list (string * Z);
  sort_values_perm : forall l, Permutation (sort_values l) l;
  sort_values_desc : forall l, Sorted value_geb (sort_values l)
}.

(** A sort kind is stable when entries of equal value keep their order. *)
Definition same_value (v : Z) (e : string * Z) : bool := snd e =? v.

Definition Stable (K : SortKind) : Prop :=
  forall l v, filter (same_value v) (sort_values l) = filter (same_value v) l.

(** One stable kind: insertion from the right, an entry going in front of
    the first entry that is not strictly larger. *)
Fixpoint insert_desc (e : string * Z) (l : list (string * Z))
    : list (string * Z) :=
  match l with
  | [] => [e]
  | x :: l' => if snd x <=? snd e then e :: x :: l'
               else x :: insert_desc e l'
  end.

Fixpoint insertion_desc (l : list (string * Z)) : list (string * Z) :=
  match l with
  | [] => []
  | e :: l' => insert_desc e (insertion_desc l')
  end.

(** ** Derived views *)

Record KPIs := mkKPIs {
  total_sales  : Z;
  total_profit : Z;
  avg_shipping : option Q;
  total_orders : nat
}.

(** The four figures of [draw_kpis]. *)
Definition draw_kpis (F : DataFrame) : KPIs :=
  {| total_sales  := sum_skipna (map Sales F);
     total_profit := sum_skipna (map Profit F);
     avg_shipping := mean (map Shipping_Cost F);
     total_orders := nunique (map Order_ID F) |}.

Definition groupby_label := @groupby_sum string String.eqb String.leb Row.

(** [filtered_df.groupby("Region")["Sales"].sum().reset_index()]. *)
Definition region_sales (F : DataFrame) : list (string * Z) :=
  groupby_label Region Sales F.

(** [df_year['Year'] = df_year['Order Date'].dt.year]. *)
Definition Year (r : Row) : option Z :=
  option_map (fun t => year (date t)) (Order_Date r).

Definition year_sales (F : DataFrame) : list (Z * Z) :=
  groupby_sum Z.eqb Z.leb Year Sales F.

(** [Series.head(n)]. *)
Definition head {A : Type} (n : nat) (l : list A) : list A := firstn n l.

Definition state_profit (F : DataFrame) : list (string * Z) :=
  groupby_label State Profit F.

(** [groupby("State")["Profit"].sum().sort_values(ascending=False).head(10)]. *)
Definition top_states {K : SortKind} (F : DataFrame) : list (string * Z) :=
  head 10 (sort_values (state_profit F)).

Definition groupby_pair (k1 k2 : Row -> option string) :=
  @groupby_sum (string * string) pair_eqb pair_leb Row (key2 k1 k2).

Definition cat_sales (F : DataFrame) : list ((string * string) * Z) :=
  groupby_pair Category Sub_Category Sales F.

Definition ship_sales (F : DataFrame) : list (string * Z) :=
  groupby_label Ship_Mode Sales F.

Definition heat_data (F : DataFrame) : list ((string * string) * Z) :=
  groupby_pair Region Segment Profit F.

(** ** The pivot of the heatmap *)

Record Pivot (V : Type) := mkPivot {
  index   : list string;
  columns : list string;
  values  : list (list V)
}.
Arguments mkPivot {V}.
Arguments index {V}.
Arguments columns {V}.
Arguments values {V}.

Definition lookup_pair (k : string * string)
    (data : list ((string * string) * Z)) : option Z :=
  option_map snd (find (fun e => pair_eqb (fst e) k) data).

(** [data.pivot(index=.., columns=.., values=..)]: one line per distinct
    first label, one column per distinct second label, labels ascending,
    NaN where the pair has no entry.  [None] is the [ValueError] pandas
    raises when a pair occurs twice. *)
Definition pivot (data : list ((string * string) * Z))
    : option (Pivot (option Z)) :=
  if has_duplicates pair_eqb (map fst data) then None
  else
    let idx := sort_labels String.leb
                 (unique String.eqb (map (fun e => fst (fst e)) data)) in
    let cols := sort_labels String.leb
                  (unique String.eqb (map (fun e => snd (fst e)) data)) in
    Some {| index := idx;
            columns := cols;
            values :=
              map (fun i => map (fun c => lookup_pair (i, c) data) cols) idx |}.

(** [DataFrame.fillna(v)]. *)
Definition fillna (v : Z) (p : Pivot (option Z)) : Pivot Z :=
  {| index := index p;
     columns := columns p;
     values := map (map (fun c => match c with Some x => x | None => v end))
                   (values p) |}.

Definition heat_pivot (F : DataFrame) : option (Pivot Z) :=
  option_map (fillna 0) (pivot (heat_data F)).

(** The cells of a grid, line by line. *)
Definition cells {V : Type} (p : Pivot V) : list V := concat (values p).

(** ** Default controls

    Each multiselect starts from the distinct labels present in its column,
    the date input from the earliest and the latest order date. *)

Fixpoint ts_min (l : list Timestamp) : option Timestamp :=
  match l with
  | [] => None
  | d :: l' => match ts_min l' with
               | None => Some d
               | Some m => Some (if ts_leb d m then d else m)
               end
  end.

Fixpoint ts_max (l : list Timestamp) : option Timestamp :=
  match l with
  | [] => None
  | d :: l' => match ts_max l' with
               | None => Some d
               | Some m => Some (if ts_leb m d then d else m)
               end
  end.

Definition default_labels (col : Row -> option string) (df : DataFrame)
    : list string :=
  unique String.eqb (dropna (map col df)).

(** The date input is given the earliest and the latest timestamp and
    keeps their days.  [None] when the frame holds no order date: [min()]
    and [max()] are then NaT and there is no range to start from. *)
Definition default_predicate (df : DataFrame) : option Predicate :=
  match ts_min (dropna (map Order_Date df)),
        ts_max (dropna (map Order_Date df)) with
  | Some lo, Some hi =>
      Some {| region := default_labels Region df;
              segment := default_labels Segment df;
              category := default_labels Category df;
              date_range := (date lo, date hi) |}
  | _, _ => None
  end.

(** ** Vocabulary for the statements *)

(** The sum of a column of values that are all present. *)
Definition total (l : list Z) : Z := fold_right Z.add 0 l.

(** The amounts of a column are whole numbers small enough for every
    float64 or int64 sum of some of them, taken in any order, to be free of
    rounding and of wrap-around. *)
Definition exact_amounts (l : list (option Z)) : Prop :=
  total (map Z.abs (dropna l)) <= 2 ^ 53.

(** The rows whose grouping key is present. *)
Definition has_key {R K : Type} (key : R -> option K) (r : R) : bool :=
  match key r with
  | Some _ => true
  | None => false
  end.

(** Every group of [view] carries the label of some row of [rows]. *)
Definition labels_from {R K : Type} (key : R -> option K) (rows : list R)
    (view : list (K * Z)) : Prop :=
  forall k v, In (k, v) view -> exists r, In r rows /\ key r = Some k.

(** The rows behind the lines of a grouped table, group after group. *)
Definition grouped_rows {R K : Type} (eqb : K -> K -> bool)
    (key : R -> option K) (rows : list R) (view : list (K * Z)) : list R :=
  concat (map (fun e => filter (key_is eqb key (fst e)) rows) view).

(** Each line of [view] holds the sum of [val] over the rows of its
    label. *)
Definition totals_of {R K : Type} (eqb : K -> K -> bool)
    (key : R -> option K) (val : R -> option Z) (rows : list R)
    (view : list (K * Z)) : Prop :=
  forall k v, In (k, v) view ->
    v = sum_skipna (map val (filter (key_is eqb key k) rows)).

(** [z[i][j]] of a grid. *)
Definition cell {V : Type} (p : Pivot V) (i j : nat) : option V :=
  match nth_error (values p) i with
  | Some line => nth_error line j
  | None => None
  end.

(** [x] comes before [y] in [l]. *)
Definition Before {A : Type} (x y : A) (l : list A) : Prop :=
  exists l1 l2 l3, l = l1 ++ x :: l2 ++ y :: l3.

(** The labels of the lines and of the columns of the heatmap. *)
Definition heat_keys (F : DataFrame) : list (string * string) :=
  group_keys pair_eqb pair_leb (key2 Region Segment) F.

Definition heat_index (F : DataFrame) : list string :=
  sort_labels String.leb (unique String.eqb (map fst (heat_keys F))).

Definition heat_columns (F : DataFrame) : list string :=
  sort_labels String.leb (unique String.eqb (map snd (heat_keys F))).

Definition pair_total (F : DataFrame) (k : string * string) : Z :=
  group_total pair_eqb (key2 Region Segment) Profit F k.

(** ** The script over a store of frames

    In the script a name holds a reference to a frame.  [df[mask]] and
    [.copy()] build a new frame; the column assignment on [df_year] writes
    into the frame it is given.  The store keeps frames by address so that
    what a statement writes, and where, is explicit. *)

Record Frame := mkFrame {
  frame_rows : DataFrame;
  frame_Year : option (list (option Z))
}.

Definition Store := list Frame.
Definition addr := nat.

(** Computations over the store.  A result [None] is a raised exception;
    the store is then as the statement that raised found it. *)
Definition M (A : Type) : Type := Store -> option A * Store.

Definition ret {A} (x : A) : M A := fun h => (Some x, h).

Definition bind {A B} (m : M A) (k : A -> M B) : M B :=
  fun h => match m h with
           | (Some x, h') => k x h'
           | (None, h') => (None, h')
           end.

Notation "x <- m ;; k" := (bind m (fun x => k))
  (at level 61, m at next level, right associativity).

Definition raise {A} : M A := fun h => (None, h).

Definition read (a : addr) : M Frame :=
  fun h => match nth_error h a with
           | Some f => (Some f, h)
           | None => (None, h)
           end.

Definition alloc (f : Frame) : M addr :=
  fun h => (Some (length h), h ++ [f]).

Fixpoint update (h : Store) (a : addr) (f : Frame) : Store :=
  match h, a with
  | [], _ => []
  | _ :: h', O => f :: h'
  | g :: h', S a' => g :: update h' a' f
  end.

Definition write (a : addr) (f : Frame) : M unit :=
  fun h => match nth_error h a with
           | Some _ => (Some tt, update h a f)
           | None => (None, h)
           end.

(** [frame[mask]]: the selected rows, each with its cells of any added
    column, in a new frame. *)
Definition frame_mask (f : Frame) (P : Predicate) : Frame :=
  {| frame_rows := filtered_df (frame_rows f) P;
     frame_Year :=
       option_map
         (fun ys => map snd (filter (fun p => mask P (fst p))
                                    (combine (frame_rows f) ys)))
         (frame_Year f) |}.

Definition getitem_mask (a : addr) (P : Predicate) : M addr :=
  f <- read a ;; alloc (frame_mask f P).

(** [frame.copy()]. *)
Definition copy (a : addr) : M addr :=
  f <- read a ;; alloc f.

(** [frame['Year'] = frame['Order Date'].dt.year], in place. *)
Definition with_Year (f : Frame) : Frame :=
  {| frame_rows := frame_rows f;
     frame_Year := Some (map Year (frame_rows f)) |}.

Definition setitem_Year (a : addr) : M unit :=
  f <- read a ;; write a (with_Year f).

(** [frame.groupby('Year')['Sales'].sum().reset_index()]; a frame without
    the column raises [KeyError]. *)
Definition groupby_Year_Sales (a : addr) : M (list (Z * Z)) :=
  f <- read a ;;
  match frame_Year f with
  | Some ys =>
      ret (groupby_sum Z.eqb Z.leb snd (fun p => Sales (fst p))
             (combine (frame_rows f) ys))
  | None => raise
  end.

Inductive Page := General_Overview | Detailed_Analysis.

Record Overview := mkOverview {
  ov_kpis         : KPIs;
  ov_region_sales : list (string * Z);
  ov_year_sales   : list (Z * Z);
  ov_top_states   : list (string * Z)
}.

Record Details := mkDetails {
  de_cat_sales  : list ((string * string) * Z);
  de_scatter    : DataFrame;
  de_ship_sales : list (string * Z);
  de_heat_pivot : Pivot Z
}.

(** Lines 60-85. *)
Definition general_overview {K : SortKind} (filtered : addr) : M Overview :=
  f <- read filtered ;;
  df_year <- copy filtered ;;
  _ <- setitem_Year df_year ;;
  ys <- groupby_Year_Sales df_year ;;
  ret {| ov_kpis := draw_kpis (frame_rows f);
         ov_region_sales := region_sales (frame_rows f);
         ov_year_sales := ys;
         ov_top_states := top_states (frame_rows f) |}.

(** A marker size that [px.scatter] accepts: a number, not negative. *)
Definition marker_size_ok (r : Row) : bool :=
  match Sales r with
  | Some v => 0 <=? v
  | None => false
  end.

(** [px.scatter(frame, ..., size="Sales", ...)] raises [ValueError] when a
    row has a missing or a negative size. *)
Definition px_scatter (rows : DataFrame) : M unit :=
  if forallb marker_size_ok rows then ret tt else raise.

(** Lines 88-137. *)
Definition detailed_analysis (filtered : addr) : M Details :=
  f <- read filtered ;;
  _ <- px_scatter (frame_rows f) ;;
  match heat_pivot (frame_rows f) with
  | Some hp =>
      ret {| de_cat_sales := cat_sales (frame_rows f);
             de_scatter := frame_rows f;
             de_ship_sales := ship_sales (frame_rows f);
             de_heat_pivot := hp |}
  | None => raise
  end.

(** The script from line 29 on, [df] being the address of the loaded
    frame. *)
Definition dashboard {K : SortKind} (page : Page) (df : addr) (P : Predicate)
    : M (addr * (Overview + Details)) :=
  filtered <- getitem_mask df P ;;
  match page with
  | General_Overview =>
      o <- general_overview filtered ;; ret (filtered, inl o)
  | Detailed_Analysis =>
      d <- detailed_analysis filtered ;; ret (filtered, inr d)
  end.

(** The views of each page as functions of the selected rows. *)
Definition overview_of {K : SortKind} (F : DataFrame) : Overview :=
  {| ov_kpis := draw_kpis F;
     ov_region_sales := region_sales F;
     ov_year_sales := year_sales F;
     ov_top_states := top_states F |}.

Definition details_of (F : DataFrame) : Details :=
  {| de_cat_sales := cat_sales F;
     de_scatter := F;
     de_ship_sales := ship_sales F;
     de_heat_pivot :=
       {| index := heat_index F;
          columns := heat_columns F;
          values := map (fun i => map (fun c => pair_total F (i, c))
                                      (heat_columns F))
                        (heat_index F) |} |}.

(** The store once the page has been drawn. *)
Definition store_after (page : Page) (h : Store) (f : Frame) (P : Predicate)
    : Store :=
  match page with
  | General_Overview => h ++ [frame_mask f P; with_Year (frame_mask f P)]
  | Detailed_Analysis => h ++ [frame_mask f P]
  end.

Definition output_of {K : SortKind} (page : Page) (F : DataFrame)
    : Overview + Details :=
  match page with
  | General_Overview => inl (overview_of F)
  | Detailed_Analysis => inr (details_of F)
  end.

(** The chart calls of the page accept the selected rows. *)
Definition charts_accept (page : Page) (F : DataFrame) : bool :=
  match page with
  | General_Overview => true
  | Detailed_Analysis => forallb marker_size_ok F
  end.

(** What the script returns: the address of the selection and the views of
    the page, or an exception. *)
Definition result_of {K : SortKind} (page : Page) (h : Store)
    (F : DataFrame) : option (addr * (Overview + Details)) :=
  if charts_accept page F then Some (length h, output_of page F) else None.

(** ** Sample frames *)

Definition order_line (id : string) (d : Date)
    (reg seg : string) (ship st : option string) (sales profit : Z) : Row :=
  {| Order_ID := Some id; Order_Date := Some (midnight d);
     Region := Some reg; Segment := Some seg;
     Category := Some "Furniture"%string;
     Sub_Category := Some "Chairs"%string;
     Ship_Mode := ship; State := st;
     Sales := Some sales; Profit := Some profit;
     Discount := Some 0; Shipping_Cost := Some 5 |}.

(** Three order lines: two regions, two segments. *)
Definition three_lines : DataFrame :=
  [ order_line "CA-1" (mkDate 2014 3 1) "East" "Consumer"
      (Some "First Class"%string) (Some "Ohio"%string) 100 10;
    order_line "CA-2" (mkDate 2014 5 9) "East" "Corporate"
      (Some "Same Day"%string) (Some "Ohio"%string) 50 (-5);
    order_line "CA-3" (mkDate 2015 1 20) "West" "Consumer"
      (Some "First Class"%string) (Some "Utah"%string) 200 20 ]%string.

Definition all_labels : Predicate :=
  {| region := ["East"; "West"]%string;
     segment := ["Consumer"; "Corporate"]%string;
     category := ["Furniture"]%string;
     date_range := (mkDate 2014 3 1, mkDate 2015 1 20) |}.

(** Every label chosen, the range ending before the first order. *)
Definition before_first_order : Predicate :=
  {| region := ["East"; "West"]%string;
     segment := ["Consumer"; "Corporate"]%string;
     category := ["Furniture"]%string;
     date_range := (mkDate 2013 1 1, mkDate 2013 12 31) |}.

(** Every segment chosen, one region only. *)
Definition west_only : Predicate :=
  {| region := ["West"]%string;
     segment := ["Consumer"; "Corporate"]%string;
     category := ["Furniture"]%string;
     date_range := (mkDate 2014 3 1, mkDate 2015 1 20) |}.

(** One order line whose ship mode is missing. *)
Definition no_ship_mode : DataFrame :=
  [ order_line "CA-1" (mkDate 2014 3 1) "East" "Consumer"
      None (Some "Ohio"%string) 100 10 ]%string.

(** Eleven order lines, one per state, each with profit 1. *)
Definition eleven_states : DataFrame :=
  map (fun st => order_line "CA-1" (mkDate 2014 3 1) "East" "Consumer"
                   (Some "First Class") (Some st) 20 1)%string
      [ "Alabama"; "Arizona"; "Florida"; "Georgia"; "Idaho"; "Iowa";
        "Kansas"; "Maine"; "Nevada"; "Ohio"; "Utah" ]%string.

(** The range of the date control turned round. *)
Definition inverted_range : Predicate :=
  {| region := ["East"; "West"]%string;
     segment := ["Consumer"; "Corporate"]%string;
     category := ["Furniture"]%string;
     date_range := (mkDate 2015 1 20, mkDate 2014 3 1) |}.

(** Two order lines, the second without a region. *)
Definition missing_region : DataFrame :=
  [ order_line "CA-1" (mkDate 2014 3 1) "East" "Consumer"
      (Some "First Class"%string) (Some "Ohio"%string) 100 10;
    {| Order_ID := Some "CA-2"%string;
       Order_Date := Some (midnight (mkDate 2014 5 9));
       Region := None; Segment := Some "Corporate"%string;
       Category := Some "Furniture"%string;
       Sub_Category := Some "Tables"%string;
       Ship_Mode := Some "Same Day"%string; State := Some "Utah"%string;
       Sales := Some 40; Profit := Some 4;
       Discount := Some 0; Shipping_Cost := Some 2 |} ]%string.

Definition missing_region_defaults : Predicate :=
  {| region := ["East"]%string;
     segment := ["Consumer"; "Corporate"]%string;
     category := ["Furniture"]%string;
     date_range := (mkDate 2014 3 1, mkDate 2014 5 9) |}.

(** No region chosen. *)
Definition no_region : Predicate :=
  {| region := [];
     segment := ["Consumer"; "Corporate"]%string;
     category := ["Furniture"]%string;
     date_range := (mkDate 2014 3 1, mkDate 2015 1 20) |}.

(** The choices of [all_labels], picked in another order and twice. *)
Definition all_labels_shuffled : Predicate :=
  {| region := ["West"; "East"; "West"]%string;
     segment := ["Corporate"; "Consumer"]%string;
     category := ["Furniture"; "Furniture"]%string;
     date_range := (mkDate 2014 3 1, mkDate 2015 1 20) |}.

(** Two complete order lines. *)
Definition two_lines : DataFrame :=
  [ order_line "CA-1" (mkDate 2014 3 1) "East" "Consumer"
      (Some "First Class"%string) (Some "Ohio"%string) 100 10;
    order_line "CA-2" (mkDate 2014 5 9) "West" "Corporate"
      (Some "Same Day"%string) (Some "Utah"%string) 50 (-5) ]%string.

Definition two_lines_defaults : Predicate :=
  {| region := ["East"; "West"]%string;
     segment := ["Consumer"; "Corporate"]%string;
     category := ["Furniture"]%string;
     date_range := (mkDate 2014 3 1, mkDate 2014 5 9) |}.

(** A row with the four cells the mask reads, its order date without a
    time of day. *)
Definition complete (r : Row) : bool :=
  has_key Region r && has_key Segment r && has_key Category r
  && match Order_Date r with
     | Some t => (clock t =? 0)%N
     | None => false
     end.

(** Two complete order lines, the later one placed at ten in the morning
    (the time of day counted in seconds). *)
Definition late_order : DataFrame :=
  [ order_line "CA-1" (mkDate 2014 3 1) "East" "Consumer"
      (Some "First Class"%string) (Some "Ohio"%string) 100 10;
    {| Order_ID := Some "CA-2"%string;
       Order_Date := Some {| date := mkDate 2014 5 9; clock := 36000 |};
       Region := Some "West"%string; Segment := Some "Corporate"%string;
       Category := Some "Furniture"%string;
       Sub_Category := Some "Tables"%string;
       Ship_Mode := Some "Same Day"%string; State := Some "Utah"%string;
       Sales := Some 40; Profit := Some 4;
       Discount := Some 0; Shipping_Cost := Some 2 |} ]%string.

(** Three order lines, the second a return with negative sales. *)
Definition with_return : DataFrame :=
  [ order_line "CA-1" (mkDate 2014 3 1) "East" "Consumer"
      (Some "First Class"%string) (Some "Ohio"%string) 100 10;
    order_line "CA-2" (mkDate 2014 5 9) "East" "Corporate"
      (Some "Same Day"%string) (Some "Ohio"%string) (-50) (-5);
    order_line "CA-3" (mkDate 2015 1 20) "West" "Consumer"
      (Some "First Class"%string) (Some "Utah"%string) 200 20 ]%string.

(** [view] is the table of the groups of [rows] by [key]: one line per
    label present, labels distinct and ascending, each with the sum of
    [val] over the rows of its label. *)
Definition grouped_by {R K : Type} (eqb leb : K -> K -> bool)
    (key : R -> option K) (val : R -> option Z) (rows : list R)
    (view : list (K * Z)) : Prop :=
  NoDup (map fst view) /\
  Sorted (fun a b => leb a b = true) (map fst view) /\
  length view = length (unique eqb (dropna (map key rows))) /\
  (forall k, In k (map fst view) <-> exists r, In r rows /\ key r = Some k) /\
  (forall k v, In (k, v) view ->
     v = sum_skipna (map val (filter (key_is eqb key k) rows))).

(** Column [j] of a grid. *)
Definition column_cells (p : Pivot Z) (j : nat) : list Z :=
  map (fun line => nth j line 0) (values p).

(** * Properties *)

(** ** Facts about days and timestamps *)

Ltac date_cases :=
  unfold date_leb, date_le, date_lt, date_compare in *;
  repeat match goal with
         | |- context [?x ?= ?y] => destruct (Z.compare_spec x y)
         | H : context [?x ?= ?y] |- _ => destruct (Z.compare_spec x y)
         end;
  try congruence; try lia.

Lemma date_leb_trans a b c :
  date_leb a b = true -> date_leb b c = true -> date_leb a c = true.
Proof. destruct a, b, c; simpl. date_cases. Qed.

Lemma date_leb_not_lt a b : date_leb a b = true -> ~ date_lt b a.
Proof. destruct a, b; simpl. date_cases. Qed.

Lemma date_leb_refl a : date_leb a a = true.
Proof. destruct a; simpl. date_cases. Qed.

Lemma date_leb_total a b : date_leb a b = true \/ date_leb b a = true.
Proof. destruct a, b; simpl. date_cases; auto. Qed.

Lemma date_leb_le a b : date_leb a b = true <-> date_le a b.
Proof.
  unfold date_leb, date_le. destruct (date_compare a b); split; congruence.
Qed.

Lemma date_leb_year a b : date_leb a b = true -> year a <= year b.
Proof.
  unfold date_leb, date_compare.
  destruct (Z.compare_spec (year a) (year b)); intros; lia || discriminate.
Qed.

Lemma date_compare_eq a b : date_compare a b = Eq -> a = b.
Proof.
  destruct a, b; simpl. unfold date_compare. simpl.
  repeat match goal with
         | |- context [?x ?= ?y] => destruct (Z.compare_spec x y)
         end; try discriminate.
  intros _. f_equal; assumption.
Qed.

Lemma date_compare_refl a : date_compare a a = Eq.
Proof. unfold date_compare. rewrite !Z.compare_refl. reflexivity. Qed.

Lemma date_compare_Gt a b : date_compare a b = Gt -> date_compare b a = Lt.
Proof. destruct a, b; simpl. date_cases. Qed.

Lemma date_lt_trans a b c : date_lt a b -> date_lt b c -> date_lt a c.
Proof. destruct a, b, c; simpl. date_cases. Qed.

Lemma date_lt_leb a b : date_lt a b -> date_leb a b = true.
Proof. unfold date_lt, date_leb. intros ->. reflexivity. Qed.


(** The order of timestamps: by day, then by time of day. *)
Lemma ts_leb_spec a b :
  ts_leb a b = true <->
  date_lt (date a) (date b) \/ (date a = date b /\ (clock a <= clock b)%N).
Proof.
  unfold ts_leb, ts_compare, date_lt.
  destruct (date_compare (date a) (date b)) eqn:E.
  - apply date_compare_eq in E.
    destruct (N.compare_spec (clock a) (clock b)) as [Hc|Hc|Hc].
    + split; auto. intros _. right. split; [assumption | lia].
    + split; auto. intros _. right. split; [assumption | lia].
    + split; [discriminate|]. intros [H'|[_ H']]; [discriminate | lia].
  - split; auto.
  - split; [discriminate|]. intros [H|[H _]]; [discriminate|].
    rewrite H, date_compare_refl in E. discriminate.
Qed.

Lemma ts_leb_trans a b c :
  ts_leb a b = true -> ts_leb b c = true -> ts_leb a c = true.
Proof.
  rewrite !ts_leb_spec. intros [H1|[E1 H1]] [H2|[E2 H2]].
  - left. eapply date_lt_trans; eassumption.
  - left. rewrite <- E2. exact H1.
  - left. rewrite E1. exact H2.
  - right. split; [congruence | lia].
Qed.

Lemma ts_leb_refl a : ts_leb a a = true.
Proof. apply ts_leb_spec. right. split; [reflexivity | lia]. Qed.

Lemma ts_leb_total a b : ts_leb a b = true \/ ts_leb b a = true.
Proof.
  rewrite !ts_leb_spec. unfold date_lt.
  destruct (date_compare (date a) (date b)) eqn:E.
  - apply date_compare_eq in E.
    destruct (N.le_ge_cases (clock a) (clock b)); [left|right]; right; auto.
  - left. left. reflexivity.
  - right. left. apply date_compare_Gt. exact E.
Qed.

(** A timestamp falls on a day that is not before the day of an earlier
    one. *)
Lemma ts_leb_date a b : ts_leb a b = true -> date_leb (date a) (date b) = true.
Proof.
  rewrite ts_leb_spec. intros [H|[-> _]].
  - apply date_lt_leb. exact H.
  - apply date_leb_refl.
Qed.

Lemma midnight_leb a b : ts_leb (midnight a) (midnight b) = date_leb a b.
Proof.
  unfold ts_leb, ts_compare, date_leb, midnight. simpl.
  destruct (date_compare a b); reflexivity.
Qed.

(** Midnight is the first instant of its day. *)
Lemma midnight_first t : ts_leb (midnight (date t)) t = true.
Proof. apply ts_leb_spec. right. simpl. split; [reflexivity | lia]. Qed.

Lemma midnight_last t d :
  ts_leb t (midnight d) = true <->
  date_lt (date t) d \/ (date t = d /\ clock t = 0%N).
Proof.
  rewrite ts_leb_spec. simpl. split; intros [H|[E H]]; auto;
    right; split; auto; lia.
Qed.

(** ** Facts about the mask *)

Lemma isin_member c values : isin c values = true <-> member c values.
Proof.
  unfold isin, member. destruct c as [s|].
  - rewrite existsb_exists. split.
    + intros [x [Hin Heq]]. apply String.eqb_eq in Heq. subst x. eauto.
    + intros [x [Heq Hin]]. injection Heq as ->. exists x. split; auto.
      apply String.eqb_refl.
  - split; [discriminate | intros [s [Heq _]]; discriminate].
Qed.



Lemma Subseq_filter {A} (f : A -> bool) l : Subseq (filter f l) l.
Proof.
  induction l as [|x l IH]; simpl.
  - constructor.
  - destruct (f x); constructor; assumption.
Qed.


Lemma filter_idem {A} (f : A -> bool) l : filter f (filter f l) = filter f l.
Proof.
  induction l as [|x l IH]; simpl; auto.
  destruct (f x) eqn:E; simpl; rewrite ?E, IH; reflexivity.
Qed.

(** ** Facts about the reductions *)

Lemma total_app l1 l2 : total (l1 ++ l2) = total l1 + total l2.
Proof. induction l1 as [|x l1 IH]; simpl; lia. Qed.

Lemma total_perm l1 l2 : Permutation l1 l2 -> total l1 = total l2.
Proof. induction 1; simpl; lia. Qed.

Lemma total_map_add {A} (f g : A -> Z) l :
  total (map (fun k => f k + g k) l) = total (map f l) + total (map g l).
Proof. induction l as [|x l IH]; simpl; lia. Qed.

Lemma total_map_zero {A} (l : list A) : total (map (fun _ => 0) l) = 0.
Proof. induction l; simpl; lia. Qed.

Lemma total_map_ext {A} (f g : A -> Z) l :
  (forall x, In x l -> f x = g x) -> total (map f l) = total (map g l).
Proof.
  induction l as [|x l IH]; simpl; intros H; auto.
  rewrite (H x), IH; auto.
Qed.

Lemma sum_skipna_dropna l : sum_skipna l = total (dropna l).
Proof. induction l as [|[v|] l IH]; simpl; lia. Qed.

Lemma sum_skipna_app l1 l2 :
  sum_skipna (l1 ++ l2) = sum_skipna l1 + sum_skipna l2.
Proof. induction l1 as [|[v|] l1 IH]; simpl; lia. Qed.

Lemma In_dropna {A} (x : A) l : In x (dropna l) <-> In (Some x) l.
Proof.
  induction l as [|[y|] l IH]; simpl.
  - tauto.
  - rewrite IH. split; intros [H|H]; auto; left; congruence.
  - rewrite IH. split; [auto | intros [H|H]; [discriminate | auto]].
Qed.

Lemma dropna_map_has_key {R K} (key : R -> option K) rows :
  dropna (map key (filter (has_key key) rows)) = dropna (map key rows).
Proof.
  induction rows as [|r rows IH]; simpl; auto.
  unfold has_key at 1. destruct (key r) eqn:E; simpl; rewrite ?E, IH; auto.
Qed.

(** ** Facts about labels, generic in the label type *)

Section OrderFacts.
Context {K : Type} (leb : K -> K -> bool).

Lemma insert_label_perm k l : Permutation (insert_label leb k l) (k :: l).
Proof.
  induction l as [|x l IH]; simpl; auto.
  destruct (leb k x); auto.
  rewrite IH. apply perm_swap.
Qed.

Lemma sort_labels_perm l : Permutation (sort_labels leb l) l.
Proof.
  induction l as [|x l IH]; simpl; auto.
  rewrite insert_label_perm. auto.
Qed.

Lemma In_sort_labels l k : In k (sort_labels leb l) <-> In k l.
Proof.
  split; apply Permutation_in;
    [|apply Permutation_sym]; apply sort_labels_perm.
Qed.

Lemma NoDup_sort_labels l : NoDup l -> NoDup (sort_labels leb l).
Proof.
  intros H. eapply Permutation_NoDup; [|exact H].
  apply Permutation_sym, sort_labels_perm.
Qed.
Hypothesis leb_total : forall a b, leb a b = true \/ leb b a = true.

Lemma insert_label_sorted k l :
  Sorted (fun a b => leb a b = true) l ->
  Sorted (fun a b => leb a b = true) (insert_label leb k l).
Proof.
  induction 1 as [|x l Hs IH Hhd]; simpl.
  - repeat constructor.
  - destruct (leb k x) eqn:E.
    + repeat constructor; auto.
    + assert (Hxk : leb x k = true)
        by (destruct (leb_total k x); congruence).
      constructor; auto.
      destruct l as [|y l]; simpl in *.
      * constructor. exact Hxk.
      * inversion Hhd; subst. destruct (leb k y); constructor; auto.
Qed.

(** The group labels come out in ascending order. *)
Lemma sort_labels_sorted l :
  Sorted (fun a b => leb a b = true) (sort_labels leb l).
Proof.
  induction l as [|x l IH]; simpl; [constructor|].
  apply insert_label_sorted, IH.
Qed.
End OrderFacts.

Section LabelFacts.
Context {K : Type} (eqb : K -> K -> bool).
Hypothesis eqb_eq : forall a b, eqb a b = true <-> a = b.

Lemma mem_In k l : mem eqb k l = true <-> In k l.
Proof.
  unfold mem. rewrite existsb_exists. split.
  - intros [x [Hin He]]. apply eqb_eq in He. subst. auto.
  - intros Hin. exists k. split; auto. apply eqb_eq. reflexivity.
Qed.

Lemma mem_false k l : mem eqb k l = false <-> ~ In k l.
Proof.
  rewrite <- mem_In. destruct (mem eqb k l); split; congruence.
Qed.

Lemma In_unique_from seen l k :
  In k (unique_from eqb seen l) <-> In k l /\ ~ In k seen.
Proof.
  revert seen. induction l as [|x l IH]; intros seen; simpl.
  - tauto.
  - destruct (mem eqb x seen) eqn:E.
    + apply mem_In in E. rewrite IH. split.
      * tauto.
      * intros [[H|H] Hn]; [subst; contradiction | auto].
    + apply mem_false in E. simpl. rewrite IH. simpl. split.
      * intros [H|[H1 H2]]; [subst; auto | split; auto].
      * intros [[H|H] Hn]; auto.
        destruct (eqb x k) eqn:Ek.
        -- apply eqb_eq in Ek. auto.
        -- right. split; auto. intros [Hx|Hs]; auto.
           subst. assert (eqb k k = true) by (apply eqb_eq; auto).
           congruence.
Qed.

Lemma NoDup_unique_from seen l : NoDup (unique_from eqb seen l).
Proof.
  revert seen. induction l as [|x l IH]; intros seen; simpl.
  - constructor.
  - destruct (mem eqb x seen); auto.
    constructor; auto. rewrite In_unique_from. simpl. tauto.
Qed.

Lemma In_unique l k : In k (unique eqb l) <-> In k l.
Proof. unfold unique. rewrite In_unique_from. simpl. tauto. Qed.

Lemma NoDup_unique l : NoDup (unique eqb l).
Proof. apply NoDup_unique_from. Qed.

Lemma has_duplicates_NoDup l : NoDup l -> has_duplicates eqb l = false.
Proof.
  induction 1 as [|x l Hx _ IH]; simpl; auto.
  apply mem_false in Hx. rewrite Hx, IH. reflexivity.
Qed.

Lemma total_indicator (k0 : K) (v : Z) l :
  NoDup l ->
  total (map (fun k => if eqb k0 k then v else 0) l)
  = if mem eqb k0 l then v else 0.
Proof.
  induction 1 as [|x l Hx _ IH]; simpl; auto.
  rewrite IH. unfold mem. simpl. destruct (eqb k0 x) eqn:E; simpl.
  - apply eqb_eq in E. subst x. apply mem_false in Hx.
    unfold mem in Hx. rewrite Hx. lia.
  - reflexivity.
Qed.

Section Groups.
Context (leb : K -> K -> bool).
Context {R : Type} (key : R -> option K).

Lemma In_group_keys rows k :
  In k (group_keys eqb leb key rows) <->
  exists r, In r rows /\ key r = Some k.
Proof.
  unfold group_keys.
  rewrite In_sort_labels, In_unique, In_dropna, in_map_iff.
  split; intros [r H]; exists r; tauto.
Qed.

Lemma NoDup_group_keys rows : NoDup (group_keys eqb leb key rows).
Proof. apply NoDup_sort_labels, NoDup_unique. Qed.

Lemma group_keys_has_key rows :
  group_keys eqb leb key (filter (has_key key) rows)
  = group_keys eqb leb key rows.
Proof. unfold group_keys. rewrite dropna_map_has_key. reflexivity. Qed.

Lemma filter_key_is_has_key rows k :
  filter (key_is eqb key k) (filter (has_key key) rows)
  = filter (key_is eqb key k) rows.
Proof.
  induction rows as [|r rows IH]; simpl; auto.
  unfold has_key at 1, key_is at 2.
  destruct (key r) eqn:E; simpl; auto.
  unfold key_is at 1. rewrite E, IH. reflexivity.
Qed.

Context (val : R -> option Z).

(** Rows without a key form no group and add to no group's total. *)
Lemma groupby_sum_has_key rows :
  groupby_sum eqb leb key val (filter (has_key key) rows)
  = groupby_sum eqb leb key val rows.
Proof.
  unfold groupby_sum, group_total.
  rewrite group_keys_has_key.
  apply map_ext. intros k. rewrite filter_key_is_has_key. reflexivity.
Qed.

Lemma groupby_sum_labels rows :
  labels_from key rows (groupby_sum eqb leb key val rows).
Proof.
  intros k v Hin. unfold groupby_sum in Hin.
  apply in_map_iff in Hin. destruct Hin as [k' [Heq Hin]].
  injection Heq as -> _. apply In_group_keys in Hin. exact Hin.
Qed.

Lemma groupby_sum_value rows k v :
  In (k, v) (groupby_sum eqb leb key val rows) ->
  v = group_total eqb key val rows k.
Proof.
  unfold groupby_sum. intros Hin.
  apply in_map_iff in Hin. destruct Hin as [k' [Heq _]].
  injection Heq as -> <-. reflexivity.
Qed.

Lemma map_fst_groupby_sum rows :
  map fst (groupby_sum eqb leb key val rows)
  = group_keys eqb leb key rows.
Proof.
  unfold groupby_sum. rewrite map_map. simpl. apply map_id.
Qed.

Lemma map_snd_groupby_sum rows :
  map snd (groupby_sum eqb leb key val rows)
  = map (group_total eqb key val rows) (group_keys eqb leb key rows).
Proof. unfold groupby_sum. rewrite map_map. reflexivity. Qed.

Lemma groupby_sum_nil : groupby_sum eqb leb key val [] = [].
Proof. reflexivity. Qed.

Lemma group_total_cons r rows k :
  group_total eqb key val (r :: rows) k
  = (if key_is eqb key k r
     then match val r with Some v => v | None => 0 end
     else 0)
    + group_total eqb key val rows k.
Proof.
  unfold group_total. simpl.
  destruct (key_is eqb key k r); simpl; auto.
  destruct (val r); lia.
Qed.

(** Summing the totals of a duplicate-free list of labels that covers
    every key counts each keyed row once. *)
Lemma total_group_totals ks rows :
  NoDup ks ->
  (forall r k, In r rows -> key r = Some k -> In k ks) ->
  total (map (group_total eqb key val rows) ks)
  = sum_skipna (map val (filter (has_key key) rows)).
Proof.
  intros Hnd. induction rows as [|r rows IH]; intros Hcov.
  - simpl. unfold group_total. simpl. apply total_map_zero.
  - rewrite (total_map_ext _ _ _
               (fun k _ => group_total_cons r rows k)).
    rewrite total_map_add, IH
      by (intros r' k Hin; apply Hcov; right; exact Hin).
    simpl. unfold key_is, has_key.
    destruct (key r) as [k0|] eqn:E.
    + rewrite (total_indicator k0 _ ks Hnd).
      assert (Hin : In k0 ks) by (apply (Hcov r); simpl; auto).
      apply mem_In in Hin. rewrite Hin. simpl.
      destruct (val r); lia.
    + rewrite total_map_zero. reflexivity.
Qed.

(** Conservation for one grouped sum. *)
Lemma groupby_sum_conserves rows :
  total (map snd (groupby_sum eqb leb key val rows))
  = sum_skipna (map val (filter (has_key key) rows)).
Proof.
  rewrite map_snd_groupby_sum.
  apply total_group_totals.
  - apply NoDup_group_keys.
  - intros r k Hin Hk. apply In_group_keys. eauto.
Qed.

Lemma group_total_absent rows k :
  ~ In k (group_keys eqb leb key rows) ->
  group_total eqb key val rows k = 0.
Proof.
  intros Hn. unfold group_total.
  replace (filter (key_is eqb key k) rows) with (@nil R); auto.
  symmetry. induction rows as [|r rows IH]; simpl; auto.
  unfold key_is at 1. destruct (key r) as [k'|] eqn:E.
  - destruct (eqb k' k) eqn:Ek.
    + apply eqb_eq in Ek. subst k'. exfalso. apply Hn.
      apply In_group_keys. exists r. simpl. auto.
    + apply IH. intros Hin. apply Hn.
      apply In_group_keys. apply In_group_keys in Hin.
      destruct Hin as [r' [H1 H2]]. exists r'. simpl. auto.
  - apply IH. intros Hin. apply Hn.
    apply In_group_keys. apply In_group_keys in Hin.
    destruct Hin as [r' [H1 H2]]. exists r'. simpl. auto.
Qed.
End Groups.
End LabelFacts.

(** ** The label types of the script *)

Lemma pair_eqb_eq a b : pair_eqb a b = true <-> a = b.
Proof.
  unfold pair_eqb. destruct a as [a1 a2], b as [b1 b2]. simpl.
  rewrite andb_true_iff, !String.eqb_eq. split.
  - intros [-> ->]. reflexivity.
  - intros H. injection H as -> ->. auto.
Qed.

Lemma has_key_key2 k1 k2 r :
  has_key (key2 k1 k2) r = has_key k1 r && has_key k2 r.
Proof. unfold has_key, key2. destruct (k1 r), (k2 r); reflexivity. Qed.

Lemma has_key_Year r : has_key Year r = has_key Order_Date r.
Proof. unfold has_key, Year. destruct (Order_Date r); reflexivity. Qed.

(** ** Facts about the selected rows *)

Lemma filter_all {A} (f : A -> bool) l :
  Forall (fun x => f x = true) l -> filter f l = l.
Proof.
  induction 1 as [|x l Hx _ IH]; simpl; auto. rewrite Hx, IH. reflexivity.
Qed.

Lemma Forall_filter {A} (f : A -> bool) l :
  Forall (fun x => f x = true) (filter f l).
Proof. apply Forall_forall. intros x Hin. apply filter_In in Hin. tauto. Qed.

Lemma isin_has_key (col : Row -> option string) r values :
  isin (col r) values = true -> has_key col r = true.
Proof. unfold isin, has_key. destruct (col r); auto. Qed.

Lemma mask_keys P r :
  mask P r = true ->
  has_key Region r = true /\ has_key Segment r = true /\
  has_key Category r = true /\ has_key Order_Date r = true.
Proof.
  unfold mask. rewrite !andb_true_iff.
  intros [[[[H1 H2] H3] H4] _].
  repeat split; try (eapply isin_has_key; eassumption).
  unfold ge_ts in H4. unfold has_key. destruct (Order_Date r); auto.
Qed.

Lemma filtered_has_key (key : Row -> option string) df P :
  (forall r, mask P r = true -> has_key key r = true) ->
  filter (has_key key) (filtered_df df P) = filtered_df df P.
Proof.
  intros H. apply filter_all. unfold filtered_df.
  eapply Forall_impl; [|apply Forall_filter]. exact H.
Qed.

Lemma filtered_keyed {K} (key : Row -> option K) df P :
  (forall r, mask P r = true -> has_key key r = true) ->
  filter (has_key key) (filtered_df df P) = filtered_df df P.
Proof.
  intros H. apply filter_all. unfold filtered_df.
  eapply Forall_impl; [|apply Forall_filter]. exact H.
Qed.

(** ** Facts about the default controls *)

Lemma ts_min_le l m d :
  ts_min l = Some m -> In d l -> ts_leb m d = true.
Proof.
  revert m. induction l as [|x l IH]; simpl; intros m Hm Hin; [tauto|].
  destruct (ts_min l) as [m'|] eqn:E.
  - injection Hm as <-. destruct (ts_leb x m') eqn:Ex.
    + destruct Hin as [->|Hin]; [apply ts_leb_refl|].
      eapply ts_leb_trans; [exact Ex | auto].
    + destruct Hin as [->|Hin]; [|auto].
      destruct (ts_leb_total d m'); congruence.
  - injection Hm as <-. destruct Hin as [->|Hin]; [apply ts_leb_refl|].
    destruct l; [contradiction|]. simpl in E.
    destruct (ts_min l); discriminate.
Qed.

Lemma ts_max_ge l m d :
  ts_max l = Some m -> In d l -> ts_leb d m = true.
Proof.
  revert m. induction l as [|x l IH]; simpl; intros m Hm Hin; [tauto|].
  destruct (ts_max l) as [m'|] eqn:E.
  - injection Hm as <-. destruct (ts_leb m' x) eqn:Ex.
    + destruct Hin as [->|Hin]; [apply ts_leb_refl|].
      eapply ts_leb_trans; [|exact Ex]. auto.
    + destruct Hin as [->|Hin]; [|auto].
      destruct (ts_leb_total m' d); congruence.
  - injection Hm as <-. destruct Hin as [->|Hin]; [apply ts_leb_refl|].
    destruct l; [contradiction|]. simpl in E.
    destruct (ts_max l); discriminate.
Qed.

Lemma isin_default_labels col df r :
  In r df -> isin (col r) (default_labels col df) = has_key col r.
Proof.
  intros Hin. unfold isin, has_key, default_labels.
  destruct (col r) as [s|] eqn:E; auto.
  apply (mem_In _ String.eqb_eq).
  apply (In_unique _ String.eqb_eq), In_dropna.
  rewrite <- E. apply in_map. exact Hin.
Qed.

(** Under the default controls the mask asks for the three labels to be
    present and for the order date not to be after the midnight that opens
    the last day on which an order was placed. *)
Lemma default_mask df P r :
  default_predicate df = Some P -> In r df ->
  mask P r = has_key Region r && has_key Segment r && has_key Category r
             && le_ts (Order_Date r) (midnight (snd (date_range P))).
Proof.
  unfold default_predicate. intros Hp Hin.
  destruct (ts_min _) as [lo|] eqn:Elo; [|discriminate].
  destruct (ts_max _) as [hi|] eqn:Ehi; [|discriminate].
  injection Hp as <-. unfold mask. simpl.
  rewrite !isin_default_labels by exact Hin.
  rewrite <- (andb_assoc _ (ge_ts _ _)). f_equal.
  unfold ge_ts, le_ts. destruct (Order_Date r) as [d|] eqn:Ed;
    [|reflexivity].
  assert (Hd : In d (dropna (map Order_Date df))).
  { apply In_dropna. rewrite <- Ed. apply in_map. exact Hin. }
  rewrite (ts_leb_trans _ _ _ (midnight_first lo) (ts_min_le _ _ _ Elo Hd)).
  reflexivity.
Qed.

Lemma midnight_of_date t : clock t = 0%N -> t = midnight (date t).
Proof. destruct t as [d c]. simpl. intros ->. reflexivity. Qed.

(** Without a time of day every order date passes the end of the default
    range. *)
Lemma default_mask_midnight df P r :
  default_predicate df = Some P -> In r df ->
  (forall t, Order_Date r = Some t -> clock t = 0%N) ->
  le_ts (Order_Date r) (midnight (snd (date_range P)))
  = has_key Order_Date r.
Proof.
  unfold default_predicate. intros Hp Hin Hc.
  destruct (ts_min _) as [lo|]; [|discriminate].
  destruct (ts_max _) as [hi|] eqn:Ehi; [|discriminate].
  injection Hp as <-. simpl.
  unfold le_ts, has_key. destruct (Order_Date r) as [d|] eqn:Ed; auto.
  assert (Hd : In d (dropna (map Order_Date df))).
  { apply In_dropna. rewrite <- Ed. apply in_map. exact Hin. }
  rewrite (midnight_of_date d (Hc d eq_refl)), midnight_leb.
  apply ts_leb_date. eapply ts_max_ge; eassumption.
Qed.

(** ** Facts about sorting by value *)

Lemma value_geb_trans : Relations_1.Transitive value_geb.
Proof. intros a b c. unfold value_geb. lia. Qed.

Section SortFacts.
Context {K : SortKind}.

Lemma sort_values_nil : sort_values [] = [].
Proof.
  apply Permutation_nil, Permutation_sym, sort_values_perm.
Qed.

Lemma sort_values_length l : length (sort_values l) = length l.
Proof. apply Permutation_length, sort_values_perm. Qed.

Lemma sort_values_In l e : In e (sort_values l) <-> In e l.
Proof.
  split; apply Permutation_in;
    [|apply Permutation_sym]; apply sort_values_perm.
Qed.

Lemma sort_values_strongly l : StronglySorted value_geb (sort_values l).
Proof.
  apply Sorted_StronglySorted;
    [exact value_geb_trans | apply sort_values_desc].
Qed.
End SortFacts.

Lemma StronglySorted_app_l {A} (R : A -> A -> Prop) l1 l2 :
  StronglySorted R (l1 ++ l2) -> StronglySorted R l1.
Proof.
  induction l1 as [|x l1 IH]; simpl; intros H.
  - constructor.
  - inversion H as [|? ? Hs Hf]; subst. constructor; auto.
    apply Forall_app in Hf. tauto.
Qed.

Lemma StronglySorted_app_cross {A} (R : A -> A -> Prop) l1 l2 :
  StronglySorted R (l1 ++ l2) ->
  Forall (fun y => Forall (fun x => R x y) l1) l2.
Proof.
  induction l1 as [|x l1 IH]; simpl; intros H.
  - apply Forall_forall. intros; constructor.
  - inversion H as [|? ? Hs Hf]; subst.
    apply Forall_app in Hf. destruct Hf as [_ Hf].
    specialize (IH Hs). rewrite Forall_forall in *.
    intros y Hy. constructor; auto.
Qed.

Lemma head_prefix {A} n (l : list A) :
  l = head n l ++ skipn n l /\ (skipn n l = [] \/ length (head n l) = n).
Proof.
  unfold head. split; [symmetry; apply firstn_skipn|].
  destruct (Nat.le_gt_cases (length l) n) as [H|H].
  - left. apply skipn_all2. exact H.
  - right. apply firstn_length_le. lia.
Qed.

Lemma Before_prefix {A} (x y : A) l1 l2 :
  Before x y (l1 ++ l2) -> In y l1 -> NoDup (l1 ++ l2) -> In x l1.
Proof.
  intros [p1 [p2 [p3 Heq]]] Hy Hnd.
  destruct (in_split _ _ Hy) as [q1 [q2 Hq]]. subst l1.
  assert (Hcount : (q1 ++ y :: q2) ++ l2 =
                   (p1 ++ x :: p2) ++ y :: p3).
  { rewrite Heq, <- !app_assoc. reflexivity. }
  rewrite <- app_assoc in Hcount. simpl in Hcount.
  assert (Hnd' : NoDup (q1 ++ y :: q2 ++ l2)).
  { rewrite <- app_assoc in Hnd. exact Hnd. }
  assert (Hq1 : q1 = p1 ++ x :: p2).
  { revert Hcount Hnd'. generalize (p1 ++ x :: p2) as p.
    generalize (q2 ++ l2) as t. clear. revert p3.
    induction q1 as [|a q1 IH]; intros p3 t p Heq Hnd.
    - destruct p as [|b p]; auto. simpl in *. injection Heq as <- Heq.
      subst t. inversion Hnd as [|? ? Hn _]; subst.
      exfalso. apply Hn. apply in_or_app. right. left. reflexivity.
    - destruct p as [|b p]; simpl in *.
      + injection Heq as -> Heq. subst p3.
        inversion Hnd as [|? ? Hn _]; subst.
        exfalso. apply Hn. apply in_or_app. right. left. reflexivity.
      + injection Heq as <- Heq. f_equal.
        inversion Hnd; subst. eapply IH; eauto. }
  rewrite Hq1. apply in_or_app. left. apply in_or_app. right. left.
  reflexivity.
Qed.

Lemma In_head {A} n (l : list A) x : In x (head n l) -> In x l.
Proof.
  intros H. rewrite (proj1 (head_prefix n l)). apply in_or_app. auto.
Qed.

(** ** The stable kind *)

Lemma insert_desc_perm e l : Permutation (insert_desc e l) (e :: l).
Proof.
  induction l as [|x l IH]; simpl; auto.
  destruct (snd x <=? snd e); auto.
  rewrite IH. apply perm_swap.
Qed.

Lemma insertion_desc_perm l : Permutation (insertion_desc l) l.
Proof.
  induction l as [|x l IH]; simpl; auto.
  rewrite insert_desc_perm. auto.
Qed.

Lemma insert_desc_sorted e l :
  Sorted value_geb l -> Sorted value_geb (insert_desc e l).
Proof.
  induction 1 as [|x l Hs IH Hhd]; simpl.
  - repeat constructor.
  - destruct (snd x <=? snd e) eqn:E.
    + apply Z.leb_le in E. repeat constructor; auto.
    + apply Z.leb_gt in E. constructor; auto.
      destruct l as [|y l]; simpl in *.
      * constructor. unfold value_geb. lia.
      * inversion Hhd; subst.
        destruct (snd y <=? snd e); constructor; auto.
        unfold value_geb. lia.
Qed.

Lemma insertion_desc_sorted l : Sorted value_geb (insertion_desc l).
Proof.
  induction l as [|x l IH]; simpl; [constructor|].
  apply insert_desc_sorted, IH.
Qed.

Definition stable_kind : SortKind :=
  {| sort_values := insertion_desc;
     sort_values_perm := insertion_desc_perm;
     sort_values_desc := insertion_desc_sorted |}.

Lemma insert_desc_same_value v e l :
  filter (same_value v) (insert_desc e l) = filter (same_value v) (e :: l).
Proof.
  induction l as [|x l IH]; simpl; auto.
  destruct (snd x <=? snd e) eqn:E; auto.
  apply Z.leb_gt in E. simpl in *. rewrite IH. unfold same_value.
  destruct (snd x =? v) eqn:Ex, (snd e =? v) eqn:Ee; auto.
  apply Z.eqb_eq in Ex, Ee. lia.
Qed.

Lemma stable_kind_Stable : Stable stable_kind.
Proof.
  intros l v. simpl. induction l as [|x l IH]; simpl; auto.
  rewrite insert_desc_same_value. simpl. rewrite IH. reflexivity.
Qed.

(** Another kind: the stable one applied to the reversed series, so that
    entries of equal value come out in the opposite order. *)
Lemma reversed_perm l : Permutation (insertion_desc (rev l)) l.
Proof.
  rewrite insertion_desc_perm. apply Permutation_sym, Permutation_rev.
Qed.

Definition reversed_kind : SortKind :=
  {| sort_values := fun l => insertion_desc (rev l);
     sort_values_perm := reversed_perm;
     sort_values_desc := fun l => insertion_desc_sorted (rev l) |}.

Example kinds_differ_on_ties :
  @sort_values stable_kind [("a", 1); ("b", 1)]%string
  = [("a", 1); ("b", 1)]%string /\
  @sort_values reversed_kind [("a", 1); ("b", 1)]%string
  = [("b", 1); ("a", 1)]%string.
Proof. split; reflexivity. Qed.

(** ** Facts about the pivot *)

Lemma NoDup_list_prod {A B} (l1 : list A) (l2 : list B) :
  NoDup l1 -> NoDup l2 -> NoDup (list_prod l1 l2).
Proof.
  intros H1 H2. induction H1 as [|x l1 Hx _ IH]; simpl; [constructor|].
  apply NoDup_app; auto.
  - clear - H2. induction H2 as [|y l2 Hy _ IH]; simpl; constructor; auto.
    rewrite in_map_iff. intros [z [Heq Hz]]. injection Heq as ->. auto.
  - intros [a b] Hin Hin'. apply in_map_iff in Hin.
    destruct Hin as [z [Heq _]]. injection Heq as <- _.
    apply in_prod_iff in Hin'. tauto.
Qed.

Lemma grid_cells {A B V} (g : A * B -> V) (l1 : list A) (l2 : list B) :
  concat (map (fun i => map (fun c => g (i, c)) l2) l1)
  = map g (list_prod l1 l2).
Proof.
  induction l1 as [|x l1 IH]; simpl; auto.
  rewrite IH, map_app, map_map. reflexivity.
Qed.

Lemma grid_cell {A B V} (g : A -> B -> V) l1 l2 i j a b :
  nth_error l1 i = Some a -> nth_error l2 j = Some b ->
  cell {| index := []; columns := [];
          values := map (fun x => map (g x) l2) l1 |} i j = Some (g a b).
Proof.
  intros Hi Hj. unfold cell. simpl.
  rewrite (map_nth_error _ _ _ Hi). apply map_nth_error. exact Hj.
Qed.

Lemma lookup_pair_groups (g : string * string -> Z) ks k :
  lookup_pair k (map (fun k' => (k', g k')) ks)
  = if mem pair_eqb k ks then Some (g k) else None.
Proof.
  unfold lookup_pair, mem. induction ks as [|x ks IH]; simpl; auto.
  destruct (pair_eqb x k) eqn:E.
  - apply pair_eqb_eq in E. subst x.
    assert (Hk : pair_eqb k k = true) by (apply pair_eqb_eq; reflexivity).
    rewrite Hk. reflexivity.
  - destruct (pair_eqb k x) eqn:E'.
    + apply pair_eqb_eq in E'. subst x.
      assert (Hk : pair_eqb k k = true) by (apply pair_eqb_eq; reflexivity).
      congruence.
    + simpl. exact IH.
Qed.

Lemma heat_cell_value F k :
  match lookup_pair k (heat_data F) with Some x => x | None => 0 end
  = pair_total F k.
Proof.
  unfold heat_data, groupby_pair, groupby_sum.
  rewrite (lookup_pair_groups
             (group_total pair_eqb (key2 Region Segment) Profit F)).
  fold (heat_keys F). destruct (mem pair_eqb k (heat_keys F)) eqn:E; auto.
  symmetry. apply (group_total_absent _ pair_eqb_eq pair_leb).
  apply (mem_false _ pair_eqb_eq). exact E.
Qed.

(** The pivot of the grouped profits never raises, and each cell holds the
    summed profit of the rows carrying its two labels. *)
Lemma heat_pivot_eq F :
  heat_pivot F =
  Some {| index := heat_index F;
          columns := heat_columns F;
          values := map (fun i => map (fun c => pair_total F (i, c))
                                      (heat_columns F))
                        (heat_index F) |}.
Proof.
  unfold heat_pivot, pivot.
  assert (Hk : map fst (heat_data F) = heat_keys F)
    by apply map_fst_groupby_sum.
  rewrite Hk.
  rewrite (has_duplicates_NoDup _ pair_eqb_eq)
    by apply (NoDup_group_keys _ pair_eqb_eq).
  replace (map (fun e => fst (fst e)) (heat_data F))
    with (map fst (heat_keys F)) by (rewrite <- Hk, map_map; reflexivity).
  replace (map (fun e => snd (fst e)) (heat_data F))
    with (map snd (heat_keys F)) by (rewrite <- Hk, map_map; reflexivity).
  unfold fillna, heat_index, heat_columns. simpl. do 2 f_equal.
  rewrite map_map. apply map_ext. intros i.
  rewrite map_map. apply map_ext. intros c.
  apply heat_cell_value.
Qed.

Lemma In_heat_keys F a b :
  In (a, b) (heat_keys F) <->
  exists r, In r F /\ Region r = Some a /\ Segment r = Some b.
Proof.
  unfold heat_keys. rewrite (In_group_keys _ pair_eqb_eq).
  split; intros [r [Hin Hk]]; exists r; split; auto.
  - unfold key2 in Hk. destruct (Region r), (Segment r); try discriminate.
    injection Hk as -> ->. auto.
  - unfold key2. destruct Hk as [-> ->]. reflexivity.
Qed.

Lemma NoDup_heat_index F : NoDup (heat_index F).
Proof. apply NoDup_sort_labels, (NoDup_unique _ String.eqb_eq). Qed.

Lemma NoDup_heat_columns F : NoDup (heat_columns F).
Proof. apply NoDup_sort_labels, (NoDup_unique _ String.eqb_eq). Qed.

Lemma In_heat_index F a :
  In a (heat_index F) <->
  exists r, In r F /\ Region r = Some a /\ has_key Segment r = true.
Proof.
  unfold heat_index.
  rewrite In_sort_labels, (In_unique _ String.eqb_eq), in_map_iff. split.
  - intros [[a' b] [Heq Hin]]. simpl in Heq. subst a'.
    apply In_heat_keys in Hin. destruct Hin as [r [H1 [H2 H3]]].
    exists r. unfold has_key. rewrite H3. auto.
  - intros [r [H1 [H2 H3]]]. unfold has_key in H3.
    destruct (Segment r) as [b|] eqn:E; [|discriminate].
    exists (a, b). split; auto. apply In_heat_keys. eauto.
Qed.

Lemma In_heat_columns F b :
  In b (heat_columns F) <->
  exists r, In r F /\ Segment r = Some b /\ has_key Region r = true.
Proof.
  unfold heat_columns.
  rewrite In_sort_labels, (In_unique _ String.eqb_eq), in_map_iff. split.
  - intros [[a b'] [Heq Hin]]. simpl in Heq. subst b'.
    apply In_heat_keys in Hin. destruct Hin as [r [H1 [H2 H3]]].
    exists r. unfold has_key. rewrite H2. auto.
  - intros [r [H1 [H2 H3]]]. unfold has_key in H3.
    destruct (Region r) as [a|] eqn:E; [|discriminate].
    exists (a, b). split; auto. apply In_heat_keys. eauto.
Qed.

(** When no row lacks either label, the lines are the distinct regions of
    the frame and the columns its distinct segments. *)
Lemma heat_index_perm F :
  Forall (fun r => has_key Segment r = true) F ->
  Permutation (heat_index F) (unique String.eqb (dropna (map Region F))).
Proof.
  intros Hall. apply NoDup_Permutation.
  - apply NoDup_heat_index.
  - apply (NoDup_unique _ String.eqb_eq).
  - intros a. rewrite In_heat_index, (In_unique _ String.eqb_eq),
      In_dropna, in_map_iff.
    rewrite Forall_forall in Hall.
    split; intros [r H]; exists r; intuition.
Qed.

Lemma heat_columns_perm F :
  Forall (fun r => has_key Region r = true) F ->
  Permutation (heat_columns F) (unique String.eqb (dropna (map Segment F))).
Proof.
  intros Hall. apply NoDup_Permutation.
  - apply NoDup_heat_columns.
  - apply (NoDup_unique _ String.eqb_eq).
  - intros a. rewrite In_heat_columns, (In_unique _ String.eqb_eq),
      In_dropna, in_map_iff.
    rewrite Forall_forall in Hall.
    split; intros [r H]; exists r; intuition.
Qed.

Lemma heat_cells_total F :
  total (concat (map (fun i => map (fun c => pair_total F (i, c))
                                   (heat_columns F))
                     (heat_index F)))
  = sum_skipna (map Profit (filter (has_key (key2 Region Segment)) F)).
Proof.
  rewrite (grid_cells (pair_total F)).
  apply (total_group_totals _ pair_eqb_eq).
  - apply NoDup_list_prod; [apply NoDup_heat_index|apply NoDup_heat_columns].
  - intros r [a b] Hin Hk. apply in_prod_iff.
    assert (H : In (a, b) (heat_keys F))
      by (apply (In_group_keys _ pair_eqb_eq); eauto).
    unfold heat_index, heat_columns.
    rewrite !In_sort_labels, !(In_unique _ String.eqb_eq).
    split; [apply (in_map fst) in H | apply (in_map snd) in H]; exact H.
Qed.

(** ** Facts about the store *)

Lemma bind_run {A B} (m : M A) (k : A -> M B) h x h' :
  m h = (Some x, h') -> bind m k h = k x h'.
Proof. unfold bind. intros ->. reflexivity. Qed.

Lemma bind_raise {A B} (m : M A) (k : A -> M B) h h' :
  m h = (None, h') -> bind m k h = (None, h').
Proof. unfold bind. intros ->. reflexivity. Qed.

Lemma read_run a h f : nth_error h a = Some f -> read a h = (Some f, h).
Proof. unfold read. intros ->. reflexivity. Qed.

Lemma write_run a h f g :
  nth_error h a = Some g -> write a f h = (Some tt, update h a f).
Proof. unfold write. intros ->. reflexivity. Qed.

Lemma nth_error_snoc_new (h : Store) f :
  nth_error (h ++ [f]) (length h) = Some f.
Proof.
  rewrite nth_error_app2 by lia. rewrite Nat.sub_diag. reflexivity.
Qed.

Lemma update_snoc (h : Store) f g : update (h ++ [f]) (length h) g = h ++ [g].
Proof. induction h as [|x h IH]; simpl; [|rewrite IH]; reflexivity. Qed.

Lemma nth_error_extend (h ext : Store) a :
  (a < length h)%nat -> nth_error (h ++ ext) a = nth_error h a.
Proof. intros H. apply nth_error_app1. exact H. Qed.

Lemma map_snd_combine_map {A B} (f : A -> B) l :
  map snd (combine l (map f l)) = map f l.
Proof. induction l as [|x l IH]; simpl; [|rewrite IH]; reflexivity. Qed.

Lemma groupby_Year_combine rows :
  groupby_sum Z.eqb Z.leb snd (fun p => Sales (fst p))
    (combine rows (map Year rows))
  = year_sales rows.
Proof.
  unfold year_sales, groupby_sum, group_keys, group_total.
  rewrite map_snd_combine_map. apply map_ext. intros k. do 2 f_equal.
  induction rows as [|r rows IH]; cbn [combine map filter]; auto.
  change (key_is Z.eqb snd k (r, Year r)) with (key_is Z.eqb Year k r).
  destruct (key_is Z.eqb Year k r); cbn [map fst]; rewrite IH; reflexivity.
Qed.

Lemma getitem_mask_run h df f P :
  nth_error h df = Some f ->
  getitem_mask df P h = (Some (length h), h ++ [frame_mask f P]).
Proof.
  intros H. unfold getitem_mask.
  rewrite (bind_run _ _ _ _ _ (read_run _ _ _ H)). reflexivity.
Qed.

Lemma general_overview_run {K : SortKind} h a f :
  nth_error h a = Some f ->
  general_overview a h
  = (Some (overview_of (frame_rows f)), h ++ [with_Year f]).
Proof.
  intros H. unfold general_overview, copy, setitem_Year, groupby_Year_Sales.
  rewrite (bind_run _ _ _ _ _ (read_run _ _ _ H)).
  rewrite (bind_run _ _ h (length h) (h ++ [f]))
    by (rewrite (bind_run _ _ _ _ _ (read_run _ _ _ H)); reflexivity).
  rewrite (bind_run _ _ (h ++ [f]) tt (h ++ [with_Year f])).
  2:{ rewrite (bind_run _ _ _ _ _ (read_run _ _ _ (nth_error_snoc_new h f))).
      rewrite (write_run _ _ _ _ (nth_error_snoc_new h f)), update_snoc.
      reflexivity. }
  rewrite (bind_run _ _ (h ++ [with_Year f]) (year_sales (frame_rows f))
             (h ++ [with_Year f])).
  2:{ rewrite (bind_run _ _ _ _ _
                 (read_run _ _ _ (nth_error_snoc_new h (with_Year f)))).
      simpl. rewrite groupby_Year_combine. reflexivity. }
  reflexivity.
Qed.

Lemma detailed_analysis_run h a f :
  nth_error h a = Some f ->
  detailed_analysis a h
  = (if forallb marker_size_ok (frame_rows f)
     then Some (details_of (frame_rows f)) else None, h).
Proof.
  intros H. unfold detailed_analysis, px_scatter.
  rewrite (bind_run _ _ _ _ _ (read_run _ _ _ H)).
  destruct (forallb marker_size_ok (frame_rows f)).
  - rewrite (bind_run _ _ h tt h) by reflexivity.
    rewrite heat_pivot_eq. reflexivity.
  - apply bind_raise. reflexivity.
Qed.

(** The script only appends frames to the store; it returns the views of
    the selected rows unless a chart call of the page refuses them. *)
Lemma dashboard_run {K : SortKind} page h df f P :
  nth_error h df = Some f ->
  dashboard page df P h
  = (result_of page h (filtered_df (frame_rows f) P),
     store_after page h f P).
Proof.
  intros H. unfold dashboard, result_of.
  rewrite (bind_run _ _ _ _ _ (getitem_mask_run _ _ _ P H)).
  destruct page; simpl.
  - rewrite (bind_run _ _ _ _ _
               (general_overview_run _ _ _
                  (nth_error_snoc_new h (frame_mask f P)))).
    unfold ret. rewrite <- app_assoc. reflexivity.
  - pose proof (detailed_analysis_run _ _ _
                  (nth_error_snoc_new h (frame_mask f P))) as Hd.
    cbn [frame_mask frame_rows] in Hd.
    destruct (forallb marker_size_ok (filtered_df (frame_rows f) P)).
    + rewrite (bind_run _ _ _ _ _ Hd). reflexivity.
    + apply bind_raise. exact Hd.
Qed.

(** * The filter *)


(** C3.  Selecting twice with the same predicate is selecting once. *)
Theorem filtered_df_idempotent (df : DataFrame) (P : Predicate) :
  filtered_df (filtered_df df P) P = filtered_df df P.
Proof. unfold filtered_df. apply filter_idem. Qed.

Lemma mask_empty_range P r :
  date_lt (snd (date_range P)) (fst (date_range P)) -> mask P r = false.
Proof.
  intros Hlt. destruct (mask P r) eqn:E; auto. exfalso.
  unfold mask in E. rewrite !andb_true_iff in E.
  destruct E as [[_ Hge] Hle]. unfold ge_ts, le_ts in *.
  destruct (Order_Date r) as [d|]; [|discriminate].
  eapply date_leb_not_lt; [|exact Hlt].
  rewrite <- midnight_leb. eapply ts_leb_trans; eassumption.
Qed.

(** C6.  When the start of the date range is strictly after its end, no
    row passes the mask: the selection is the empty frame, and the
    selecting statement itself returns normally. *)
Theorem inverted_range_selects_nothing
    (df : DataFrame) (P : Predicate) (h : Store) (a : addr) :
  date_lt (snd (date_range P)) (fst (date_range P)) ->
  filtered_df df P = [] /\
  (nth_error h a = Some (mkFrame df None) ->
   getitem_mask a P h = (Some (length h), h ++ [mkFrame [] None])).
Proof.
  intros Hlt.
  assert (He : filtered_df df P = []).
  { unfold filtered_df. induction df as [|r df IH]; simpl; auto.
    rewrite (mask_empty_range P r Hlt). exact IH. }
  split; auto.
  intros Ha. rewrite (getitem_mask_run _ _ _ P Ha).
  unfold frame_mask. simpl. rewrite He. reflexivity.
Qed.

Lemma inverted_range_witness :
  date_lt (snd (date_range inverted_range)) (fst (date_range inverted_range))
  /\ filtered_df three_lines inverted_range = [].
Proof.
  split; [reflexivity|].
  apply (inverted_range_selects_nothing three_lines inverted_range [] O).
  reflexivity.
Defined.

(** C10.  With every control at its default (each set holding the
    distinct labels present in its column, the range running from the
    earliest to the latest order date) a row whose region, segment or
    category is missing is still left out: a missing cell is in no set of
    labels.  The selection is then exactly the rows whose three labels are
    present and whose order date is not after the midnight that opens the
    last order day; when no order date carries a time of day, these are
    the rows whose four filtered cells are all present. *)
Theorem default_controls_drop_missing_labels
    (df : DataFrame) (P : Predicate) :
  default_predicate df = Some P ->
  (region P = unique String.eqb (dropna (map Region df)) /\
   segment P = unique String.eqb (dropna (map Segment df)) /\
   category P = unique String.eqb (dropna (map Category df))) /\
  (forall r, In r df ->
     Region r = None \/ Segment r = None \/ Category r = None ->
     ~ In r (filtered_df df P)) /\
  filtered_df df P =
    filter (fun r => has_key Region r && has_key Segment r &&
                     has_key Category r &&
                     le_ts (Order_Date r) (midnight (snd (date_range P))))
           df /\
  ((forall r t, In r df -> Order_Date r = Some t -> clock t = 0%N) ->
   filtered_df df P =
     filter (fun r => has_key Region r && has_key Segment r &&
                      has_key Category r && has_key Order_Date r) df).
Proof.
  intros Hp. split; [|split; [|split]].
  - unfold default_predicate in Hp.
    destruct (ts_min _); [|discriminate].
    destruct (ts_max _); [|discriminate].
    injection Hp as <-. simpl. auto.
  - intros r Hin Hnone Hsel. unfold filtered_df in Hsel.
    apply filter_In in Hsel. destruct Hsel as [_ Hm].
    apply mask_keys in Hm. unfold has_key in Hm.
    destruct Hm as [H1 [H2 [H3 _]]].
    destruct Hnone as [E|[E|E]]; rewrite E in *; discriminate.
  - unfold filtered_df. apply filter_ext_in.
    intros r Hin. apply (default_mask df); assumption.
  - intros Hc. unfold filtered_df. apply filter_ext_in.
    intros r Hin. rewrite (default_mask df P r Hp Hin).
    rewrite (default_mask_midnight df P r Hp Hin (fun t => Hc r t Hin)).
    reflexivity.
Qed.

Lemma default_controls_witness :
  default_predicate missing_region = Some missing_region_defaults /\
  filtered_df missing_region missing_region_defaults
  = [order_line "CA-1" (mkDate 2014 3 1) "East" "Consumer"
       (Some "First Class"%string) (Some "Ohio"%string) 100 10].
Proof.
  split; [reflexivity|].
  rewrite (proj1 (proj2 (proj2 (default_controls_drop_missing_labels
                                  missing_region missing_region_defaults
                                  eq_refl)))).
  reflexivity.
Defined.

(** * The store *)

(** C8.  Selecting rows leaves the frame it reads unchanged: the
    selection is written to a fresh address, and neither that statement
    nor the rest of the script (the copy and the column it gains
    included) writes to a frame that existed before, whether the page is
    drawn to its end or a chart call raises on the way. *)
Theorem filter_leaves_input_unchanged
    {K : SortKind} (page : Page) (h : Store) (df : addr) (f : Frame)
    (P : Predicate) :
  nth_error h df = Some f ->
  (exists a h',
      getitem_mask df P h = (Some a, h') /\
      a <> df /\
      nth_error h' a = Some (frame_mask f P) /\
      nth_error h' df = Some f /\
      forall b, (b < length h)%nat -> nth_error h' b = nth_error h b) /\
  (exists res h',
      dashboard page df P h = (res, h') /\
      nth_error h' df = Some f /\
      forall b, (b < length h)%nat -> nth_error h' b = nth_error h b).
Proof.
  intros H.
  assert (Hlt : (df < length h)%nat)
    by (apply nth_error_Some; congruence).
  split.
  - exists (length h), (h ++ [frame_mask f P]).
    split; [apply getitem_mask_run; exact H|].
    split; [lia|]. split; [apply nth_error_snoc_new|].
    split; [rewrite nth_error_extend; auto|].
    intros b Hb. apply nth_error_extend. exact Hb.
  - eexists. exists (store_after page h f P).
    split; [apply dashboard_run; exact H|].
    destruct page; simpl; split;
      try (rewrite nth_error_extend; auto);
      intros b Hb; apply nth_error_extend; exact Hb.
Qed.

Lemma filter_leaves_input_unchanged_witness :
  nth_error [mkFrame three_lines None] O = Some (mkFrame three_lines None) /\
  exists res h',
    @dashboard stable_kind Detailed_Analysis O all_labels
      [mkFrame with_return None] = (res, h') /\
    nth_error h' O = Some (mkFrame with_return None).
Proof.
  split; [reflexivity|].
  destruct (@filter_leaves_input_unchanged stable_kind Detailed_Analysis
              [mkFrame with_return None] O (mkFrame with_return None)
              all_labels eq_refl)
    as [_ [res [h' [Hrun [Hdf _]]]]].
  exists res, h'. split; assumption.
Defined.

(** * The views *)

Lemma NoDup_groupby_label key val F : NoDup (groupby_label key val F).
Proof.
  apply (NoDup_map_inv fst). unfold groupby_label.
  rewrite map_fst_groupby_sum. apply (NoDup_group_keys _ String.eqb_eq).
Qed.

Lemma top_states_nil {K : SortKind} : top_states [] = [].
Proof.
  unfold top_states, state_profit, groupby_label.
  rewrite groupby_sum_nil, sort_values_nil. reflexivity.
Qed.

(** C7.  When the selection is empty the script still runs to its end,
    whichever page is drawn; total sales and total profit are 0, the mean
    shipping cost is undefined (NaN, here [None]), no order is counted,
    and every grouped view, the pivot of the heatmap included, has no
    row. *)
Theorem empty_selection_views
    {K : SortKind} (page : Page) (h : Store) (df : addr) (f : Frame)
    (P : Predicate) :
  nth_error h df = Some f ->
  filtered_df (frame_rows f) P = [] ->
  let F := filtered_df (frame_rows f) P in
  (exists h', dashboard page df P h
              = (Some (length h, output_of page F), h')) /\
  draw_kpis F = {| total_sales := 0; total_profit := 0;
                   avg_shipping := None; total_orders := 0 |} /\
  region_sales F = [] /\
  year_sales F = [] /\
  top_states F = [] /\
  cat_sales F = [] /\
  ship_sales F = [] /\
  heat_data F = [] /\
  heat_pivot F = Some {| index := []; columns := []; values := [] |}.
Proof.
  intros Hdf He F. split.
  - exists (store_after page h f P).
    rewrite (dashboard_run page h df f P Hdf). unfold result_of.
    fold F. subst F. rewrite He. destruct page; reflexivity.
  - subst F. rewrite He. rewrite top_states_nil. repeat split.
Qed.

Lemma empty_selection_witness :
  nth_error [mkFrame three_lines None] O = Some (mkFrame three_lines None) /\
  filtered_df three_lines before_first_order = [] /\
  draw_kpis (filtered_df three_lines before_first_order)
  = {| total_sales := 0; total_profit := 0;
       avg_shipping := None; total_orders := 0 |} /\
  @top_states stable_kind (filtered_df three_lines before_first_order) = [].
Proof.
  split; [reflexivity|]. split; [reflexivity|].
  destruct (@empty_selection_views stable_kind Detailed_Analysis
              [mkFrame three_lines None] O (mkFrame three_lines None)
              before_first_order eq_refl eq_refl)
    as [_ [Hk [_ [_ [Ht _]]]]].
  split; [exact Hk | exact Ht].
Defined.

(** C9.  In each grouped view the rows whose grouping key is missing are
    set aside before grouping: the view is the one computed from the rows
    that have the key, so such rows add to no total, and every group
    carries the label of some row, so none stands for a missing label.
    For a view grouped on two columns the key is missing when either cell
    is. *)
Theorem grouped_views_skip_missing_keys {K : SortKind} (F : DataFrame) :
  (region_sales F = region_sales (filter (has_key Region) F) /\
   labels_from Region F (region_sales F)) /\
  (year_sales F = year_sales (filter (has_key Year) F) /\
   labels_from Year F (year_sales F)) /\
  (top_states F = top_states (filter (has_key State) F) /\
   labels_from State F (top_states F)) /\
  (cat_sales F
   = cat_sales (filter (has_key (key2 Category Sub_Category)) F) /\
   labels_from (key2 Category Sub_Category) F (cat_sales F)) /\
  (ship_sales F = ship_sales (filter (has_key Ship_Mode) F) /\
   labels_from Ship_Mode F (ship_sales F)) /\
  (heat_data F = heat_data (filter (has_key (key2 Region Segment)) F) /\
   labels_from (key2 Region Segment) F (heat_data F)) /\
  (heat_pivot F = heat_pivot (filter (has_key (key2 Region Segment)) F) /\
   forall hp, heat_pivot F = Some hp ->
     (forall a, In a (index hp) -> exists r, In r F /\ Region r = Some a) /\
     (forall b, In b (columns hp) -> exists r, In r F /\ Segment r = Some b)).
Proof.
  unfold region_sales, year_sales, top_states, state_profit, cat_sales,
    ship_sales, heat_pivot, heat_data, groupby_label, groupby_pair.
  rewrite !groupby_sum_has_key.
  repeat split;
    try (apply (groupby_sum_labels _ String.eqb_eq));
    try (apply (groupby_sum_labels _ Z.eqb_eq));
    try (apply (groupby_sum_labels _ pair_eqb_eq)).
  - intros k v Hin. apply In_head in Hin.
    rewrite sort_values_In in Hin.
    exact (groupby_sum_labels _ String.eqb_eq String.leb State Profit F
             k v Hin).
  - intros a Hin. pose proof (heat_pivot_eq F) as E.
    unfold heat_pivot, heat_data, groupby_pair in E.
    rewrite E in H. injection H as <-. simpl in Hin.
    apply In_heat_index in Hin. destruct Hin as [r [H1 [H2 _]]]. eauto.
  - intros b Hin. pose proof (heat_pivot_eq F) as E.
    unfold heat_pivot, heat_data, groupby_pair in E.
    rewrite E in H. injection H as <-. simpl in Hin.
    apply In_heat_columns in Hin. destruct Hin as [r [H1 [H2 _]]]. eauto.
Qed.

(** C5, as the code has it.  The top-ten view has at most 10 rows,
    largest summed profit first, each row being a state with the sum of
    its profits.  It is the start of the pass over all states sorted by
    descending profit: a state met earlier in that pass than a kept one is
    kept too, and the states after the tenth are absent from the view,
    none of them with more profit than a kept one.  Where states of equal
    profit stand in that pass is left to the sort. *)
Theorem top_states_top_ten {K : SortKind} (F : DataFrame) :
  (length (top_states F) <= 10)%nat /\
  StronglySorted value_geb (top_states F) /\
  (forall s v, In (s, v) (top_states F) ->
     v = group_total String.eqb State Profit F s) /\
  (exists dropped,
     sort_values (state_profit F) = top_states F ++ dropped /\
     (dropped = [] \/ length (top_states F) = 10%nat) /\
     Forall (fun d => ~ In d (top_states F) /\
                      Forall (fun k => snd d <= snd k) (top_states F))
            dropped) /\
  (forall a b, Before a b (sort_values (state_profit F)) ->
     In b (top_states F) -> In a (top_states F)).
Proof.
  pose proof (head_prefix 10 (sort_values (state_profit F))) as [Hsplit Hlen].
  fold (top_states F) in Hsplit, Hlen.
  set (dropped := skipn 10 (sort_values (state_profit F))) in *.
  assert (Hss : StronglySorted value_geb (top_states F ++ dropped))
    by (rewrite <- Hsplit; apply sort_values_strongly).
  assert (Hnd : NoDup (top_states F ++ dropped)).
  { rewrite <- Hsplit.
    eapply Permutation_NoDup;
      [apply Permutation_sym, sort_values_perm|].
    apply NoDup_groupby_label. }
  split; [apply firstn_le_length|].
  split; [eapply StronglySorted_app_l; exact Hss|].
  split.
  { intros s v Hin.
    apply (groupby_sum_value String.eqb String.leb State Profit F).
    apply (proj1 (sort_values_In (state_profit F) (s, v))).
    rewrite Hsplit. apply in_or_app. left. exact Hin. }
  split.
  { exists dropped. split; [exact Hsplit|]. split; [exact Hlen|].
    pose proof (StronglySorted_app_cross _ _ _ Hss) as Hcross.
    rewrite Forall_forall in *. intros d Hd. split.
    - intros Hin. apply NoDup_app_remove_l in Hnd as Hnd2.
      clear - Hnd Hin Hd.
      induction (top_states F) as [|x l IH]; simpl in *; [tauto|].
      inversion Hnd as [|? ? Hx Hl]; subst. destruct Hin as [->|Hin].
      + apply Hx. apply in_or_app. right. exact Hd.
      + apply IH; auto.
    - exact (Hcross d Hd). }
  intros a b Hab Hb. rewrite Hsplit in Hab.
  eapply Before_prefix; eassumption.
Qed.

(** C5 does not hold of the ties.  The sort is called with its default
    kind, which promises no order among equal values.  With eleven states
    of profit 1, Alabama is the first state met in the grouped table and
    Utah the last; a sort that returns equal values in the opposite order
    keeps Utah in the view and drops Alabama.  So the state met first is
    not always the one kept. *)
Lemma top_states_ties_counterexample :
  Before ("Alabama"%string, 1) ("Utah"%string, 1)
    (state_profit (filtered_df eleven_states all_labels)) /\
  In ("Utah"%string, 1)
    (@top_states reversed_kind (filtered_df eleven_states all_labels)) /\
  ~ In ("Alabama"%string, 1)
    (@top_states reversed_kind (filtered_df eleven_states all_labels)) /\
  ~ (forall (K : SortKind) (F : DataFrame) (a b : string * Z),
       snd a = snd b -> Before a b (state_profit F) ->
       In b (@top_states K F) -> In a (@top_states K F)).
Proof.
  assert (HB : Before ("Alabama"%string, 1) ("Utah"%string, 1)
                 (state_profit (filtered_df eleven_states all_labels))).
  { exists [],
      (map (fun s => (s, 1))
         [ "Arizona"; "Florida"; "Georgia"; "Idaho"; "Iowa";
           "Kansas"; "Maine"; "Nevada"; "Ohio" ]%string), [].
    vm_compute. reflexivity. }
  assert (HU : In ("Utah"%string, 1)
                 (@top_states reversed_kind
                    (filtered_df eleven_states all_labels)))
    by (vm_compute; intuition).
  assert (HA : ~ In ("Alabama"%string, 1)
                 (@top_states reversed_kind
                    (filtered_df eleven_states all_labels)))
    by (vm_compute; intuition discriminate).
  split; [exact HB|]. split; [exact HU|]. split; [exact HA|].
  intros H. apply HA.
  exact (H reversed_kind (filtered_df eleven_states all_labels)
           ("Alabama"%string, 1) ("Utah"%string, 1) eq_refl HB HU).
Qed.

(** The stable kind, on the same rows, keeps Alabama and drops Utah. *)
Example stable_kind_keeps_first_states :
  In ("Alabama"%string, 1)
    (@top_states stable_kind (filtered_df eleven_states all_labels)) /\
  ~ In ("Utah"%string, 1)
    (@top_states stable_kind (filtered_df eleven_states all_labels)).
Proof.
  split; [vm_compute; intuition|].
  vm_compute. intuition discriminate.
Qed.

(** ** Conservation of the summed field *)

Lemma key2_mask P r :
  mask P r = true -> has_key (key2 Region Segment) r = true.
Proof.
  intros H. apply mask_keys in H. rewrite has_key_key2.
  destruct H as [-> [-> _]]. reflexivity.
Qed.

Lemma Year_mask P r : mask P r = true -> has_key Year r = true.
Proof. intros H. rewrite has_key_Year. apply mask_keys in H. tauto. Qed.

Lemma total_ones (l : list (string * Z)) :
  Forall (fun e => snd e = 1) l -> total (map snd l) = Z.of_nat (length l).
Proof.
  induction 1 as [|e l He _ IH]; [reflexivity|].
  cbn [map total fold_right length]. fold (total (map snd l)).
  rewrite He, IH. lia.
Qed.

Lemma concat_map_nil {A B} (l : list A) :
  concat (map (fun _ => @nil B) l) = [].
Proof. induction l; simpl; auto. Qed.

Lemma concat_map_app_perm {A B} (f g : A -> list B) l :
  Permutation (concat (map (fun k => f k ++ g k) l))
              (concat (map f l) ++ concat (map g l)).
Proof.
  induction l as [|x l IH]; simpl; auto.
  rewrite IH, <- !app_assoc. apply Permutation_app_head.
  rewrite !app_assoc. apply Permutation_app_tail, Permutation_app_comm.
Qed.

Lemma Permutation_concat_map {A B} (f : A -> list B) l l' :
  Permutation l l' -> Permutation (concat (map f l)) (concat (map f l')).
Proof.
  induction 1 as [|x l l' _ IH|x y l|l l' l'' _ IH1 _ IH2]; simpl.
  - constructor.
  - apply Permutation_app_head. exact IH.
  - rewrite !app_assoc. apply Permutation_app_tail, Permutation_app_comm.
  - eapply Permutation_trans; eassumption.
Qed.

Section Partition.
Context {K : Type} (eqb : K -> K -> bool).
Hypothesis eqb_eq : forall a b, eqb a b = true <-> a = b.
Context {R : Type} (key : R -> option K).

Lemma concat_indicator (k0 : K) (r : R) l :
  NoDup l ->
  concat (map (fun k => if eqb k0 k then [r] else []) l)
  = if mem eqb k0 l then [r] else [].
Proof.
  induction 1 as [|x l Hx _ IH]; simpl; auto.
  rewrite IH. unfold mem. simpl. destruct (eqb k0 x) eqn:E; simpl; auto.
  apply eqb_eq in E. subst x. apply (mem_false _ eqb_eq) in Hx.
  unfold mem in Hx. rewrite Hx. reflexivity.
Qed.

(** The groups of a duplicate-free list of labels that covers every key
    hold each keyed row once. *)
Lemma groups_partition ks rows :
  NoDup ks ->
  (forall r k, In r rows -> key r = Some k -> In k ks) ->
  Permutation (concat (map (fun k => filter (key_is eqb key k) rows) ks))
              (filter (has_key key) rows).
Proof.
  intros Hnd. induction rows as [|r rows IH]; intros Hcov.
  - simpl. rewrite concat_map_nil. constructor.
  - assert (IH' := IH (fun r' k Hin => Hcov r' k (or_intror Hin))).
    clear IH.
    replace (map (fun k => filter (key_is eqb key k) (r :: rows)) ks)
      with (map (fun k => (if key_is eqb key k r then [r] else [])
                          ++ filter (key_is eqb key k) rows) ks)
      by (apply map_ext; intros k; simpl;
          destruct (key_is eqb key k r); reflexivity).
    rewrite concat_map_app_perm, IH'. simpl.
    unfold key_is at 1, has_key at 2.
    destruct (key r) as [k0|] eqn:E.
    + rewrite (concat_indicator k0 r ks Hnd).
      assert (Hin : In k0 ks) by (apply (Hcov r); simpl; auto).
      apply (mem_In _ eqb_eq) in Hin. rewrite Hin. reflexivity.
    + rewrite concat_map_nil. reflexivity.
Qed.

Context (leb : K -> K -> bool) (val : R -> option Z).

Lemma grouped_rows_keys rows (view : list (K * Z)) :
  grouped_rows eqb key rows view
  = concat (map (fun k => filter (key_is eqb key k) rows) (map fst view)).
Proof. unfold grouped_rows. rewrite map_map. reflexivity. Qed.

Lemma groupby_sum_partition rows :
  Permutation (grouped_rows eqb key rows (groupby_sum eqb leb key val rows))
              (filter (has_key key) rows).
Proof.
  rewrite grouped_rows_keys, map_fst_groupby_sum.
  apply groups_partition.
  - apply (NoDup_group_keys _ eqb_eq).
  - intros r k Hin Hk. apply (In_group_keys _ eqb_eq). eauto.
Qed.

Lemma groupby_sum_totals rows :
  totals_of eqb key val rows (groupby_sum eqb leb key val rows).
Proof. intros k v Hin. apply (groupby_sum_value eqb leb key val rows k v Hin). Qed.
End Partition.

(** C4, as the code has it.  In every sum-based grouped view each line
    holds the sum of the field over the rows of its label, and the groups
    share out the selected rows that have the grouping key, each such row
    going to one group: all the selected rows for Sales by Region, the
    Yearly Sales Trend and the Profit Heatmap, the filter having kept only
    rows with a region, a segment and an order date; for the top-ten view,
    as long as no more than 10 states are present.  So the lines of a view
    add up to the sum of the field over those rows whenever the additions
    are exact; with amounts that float64 rounds, the two sums are taken in
    different orders and may differ in their last digits. *)
Theorem sum_views_conserve
    {K : SortKind} (df : DataFrame) (P : Predicate) :
  let F := filtered_df df P in
  (totals_of String.eqb Region Sales F (region_sales F) /\
   totals_of Z.eqb Year Sales F (year_sales F) /\
   totals_of pair_eqb (key2 Region Segment) Profit F (heat_data F) /\
   totals_of String.eqb Ship_Mode Sales F (ship_sales F) /\
   totals_of pair_eqb (key2 Category Sub_Category) Sales F (cat_sales F) /\
   totals_of String.eqb State Profit F (top_states F)) /\
  (Permutation (grouped_rows String.eqb Region F (region_sales F)) F /\
   Permutation (grouped_rows Z.eqb Year F (year_sales F)) F /\
   Permutation (grouped_rows pair_eqb (key2 Region Segment) F (heat_data F))
               F /\
   Permutation (grouped_rows String.eqb Ship_Mode F (ship_sales F))
               (filter (has_key Ship_Mode) F) /\
   Permutation (grouped_rows pair_eqb (key2 Category Sub_Category) F
                  (cat_sales F))
               (filter (has_key Sub_Category) F) /\
   ((length (state_profit F) <= 10)%nat ->
    Permutation (grouped_rows String.eqb State F (top_states F))
                (filter (has_key State) F))) /\
  (exact_amounts (map Sales F) ->
   total (map snd (region_sales F)) = sum_skipna (map Sales F) /\
   total (map snd (year_sales F)) = sum_skipna (map Sales F) /\
   total (map snd (ship_sales F))
   = sum_skipna (map Sales (filter (has_key Ship_Mode) F)) /\
   total (map snd (cat_sales F))
   = sum_skipna (map Sales (filter (has_key Sub_Category) F))) /\
  (exact_amounts (map Profit F) ->
   total (map snd (heat_data F)) = sum_skipna (map Profit F) /\
   (exists hp, heat_pivot F = Some hp /\
               total (cells hp) = sum_skipna (map Profit F)) /\
   ((length (state_profit F) <= 10)%nat ->
    total (map snd (top_states F))
    = sum_skipna (map Profit (filter (has_key State) F)))).
Proof.
  intros F.
  assert (Hreg : filter (has_key Region) F = F)
    by (apply filtered_keyed; intros r Hr; apply mask_keys in Hr; tauto).
  assert (Hyear : filter (has_key Year) F = F)
    by (apply filtered_keyed; apply Year_mask).
  assert (Hpair : filter (has_key (key2 Region Segment)) F = F)
    by (apply filtered_keyed; apply key2_mask).
  assert (Hcat : filter (has_key (key2 Category Sub_Category)) F
                 = filter (has_key Sub_Category) F).
  { apply filter_ext_in. intros r Hr. rewrite has_key_key2.
    apply filter_In in Hr. destruct Hr as [_ Hr].
    apply mask_keys in Hr. destruct Hr as [_ [_ [-> _]]]. reflexivity. }
  assert (Htop : (length (state_profit F) <= 10)%nat ->
                 top_states F = sort_values (state_profit F)).
  { intros Hlen. unfold top_states, head.
    apply firstn_all2. rewrite sort_values_length. exact Hlen. }
  split; [|split; [|split]].
  - repeat split;
      try (apply (groupby_sum_totals String.eqb));
      try (apply (groupby_sum_totals Z.eqb));
      try (apply (groupby_sum_totals pair_eqb)).
    intros k v Hin. apply In_head in Hin. rewrite sort_values_In in Hin.
    exact (groupby_sum_value String.eqb String.leb State Profit F k v Hin).
  - split; [|split; [|split; [|split; [|split]]]].
    + rewrite <- Hreg at 3.
      apply (groupby_sum_partition _ String.eqb_eq).
    + rewrite <- Hyear at 3.
      apply (groupby_sum_partition _ Z.eqb_eq).
    + rewrite <- Hpair at 3.
      apply (groupby_sum_partition _ pair_eqb_eq).
    + apply (groupby_sum_partition _ String.eqb_eq).
    + rewrite <- Hcat.
      apply (groupby_sum_partition _ pair_eqb_eq).
    + intros Hlen. rewrite (Htop Hlen).
      rewrite <- (groupby_sum_partition _ String.eqb_eq State
                    String.leb Profit F).
      unfold grouped_rows. apply Permutation_concat_map.
      apply sort_values_perm.
  - intros _. split; [|split; [|split]].
    + unfold region_sales, groupby_label.
      rewrite (groupby_sum_conserves _ String.eqb_eq), Hreg. reflexivity.
    + unfold year_sales.
      rewrite (groupby_sum_conserves _ Z.eqb_eq), Hyear. reflexivity.
    + apply (groupby_sum_conserves _ String.eqb_eq).
    + unfold cat_sales, groupby_pair.
      rewrite (groupby_sum_conserves _ pair_eqb_eq), Hcat. reflexivity.
  - intros _. split; [|split].
    + unfold heat_data, groupby_pair.
      rewrite (groupby_sum_conserves _ pair_eqb_eq), Hpair. reflexivity.
    + eexists. split; [apply heat_pivot_eq|].
      unfold cells. simpl. rewrite heat_cells_total, Hpair. reflexivity.
    + intros Hlen. rewrite (Htop Hlen).
      rewrite <- (groupby_sum_conserves _ String.eqb_eq String.leb
                    State Profit F).
      apply total_perm, Permutation_map, sort_values_perm.
Qed.

Lemma sum_views_conserve_witness :
  exact_amounts (map Sales (filtered_df three_lines all_labels)) /\
  total (map snd (region_sales (filtered_df three_lines all_labels)))
  = sum_skipna (map Sales (filtered_df three_lines all_labels)).
Proof.
  assert (He : exact_amounts
                 (map Sales (filtered_df three_lines all_labels)))
    by (vm_compute; discriminate).
  split; [exact He|].
  exact (proj1 (proj1 (proj2 (proj2
           (@sum_views_conserve stable_kind three_lines all_labels))) He)).
Defined.

(** C4 does not hold of every sum-based grouped view.  An order line
    without a ship mode is in no group of Sales by Ship Mode, so its sales
    are missing from the view's total; and with eleven states of profit 1
    the top-ten view, whatever the sort, totals 10 where the selection
    totals 11. *)
Lemma eleven_states_top_total (K : SortKind) :
  total (map snd (@top_states K (filtered_df eleven_states all_labels))) = 10.
Proof.
  assert (Hones : Forall (fun e : string * Z => snd e = 1)
                    (state_profit (filtered_df eleven_states all_labels))).
  { vm_compute. repeat constructor. }
  assert (Hlen : length (state_profit
                           (filtered_df eleven_states all_labels)) = 11%nat)
    by (vm_compute; reflexivity).
  rewrite total_ones.
  - unfold top_states, head.
    rewrite length_firstn, sort_values_length, Hlen. reflexivity.
  - rewrite Forall_forall in *. intros e He. apply Hones.
    apply In_head in He. rewrite sort_values_In in He. exact He.
Qed.

Lemma conservation_counterexample :
  total (map snd (ship_sales (filtered_df no_ship_mode all_labels)))
  <> sum_skipna (map Sales (filtered_df no_ship_mode all_labels)) /\
  (forall K : SortKind,
     total (map snd (@top_states K (filtered_df eleven_states all_labels)))
     <> sum_skipna (map Profit (filtered_df eleven_states all_labels))).
Proof.
  split.
  - vm_compute. discriminate.
  - intros K. rewrite eleven_states_top_total. vm_compute. discriminate.
Qed.

(** ** The heatmap *)

Lemma pair_total_absent F a b :
  (forall r, In r F -> ~ (Region r = Some a /\ Segment r = Some b)) ->
  pair_total F (a, b) = 0.
Proof.
  intros Hno. apply (group_total_absent _ pair_eqb_eq pair_leb).
  fold (heat_keys F). rewrite In_heat_keys.
  intros [r [Hin Hr]]. exact (Hno r Hin Hr).
Qed.

(** C2, as the code has it.  The pivot never raises.  Its lines are the
    distinct regions of the selected rows and its columns their distinct
    segments, so it has as many cells as the product of the two counts;
    the cell of a region and a segment holds the summed profit of the
    selected rows carrying both, which is 0 when there is none.  When no
    row is selected the grid has no line, no column and no cell. *)
Theorem heat_pivot_dense_over_selection (df : DataFrame) (P : Predicate) :
  let F := filtered_df df P in
  exists hp,
    heat_pivot F = Some hp /\
    Permutation (index hp) (unique String.eqb (dropna (map Region F))) /\
    Permutation (columns hp) (unique String.eqb (dropna (map Segment F))) /\
    length (cells hp)
    = (nunique (map Region F) * nunique (map Segment F))%nat /\
    (forall i j a b,
       nth_error (index hp) i = Some a ->
       nth_error (columns hp) j = Some b ->
       cell hp i j = Some (pair_total F (a, b)) /\
       ((forall r, In r F -> ~ (Region r = Some a /\ Segment r = Some b)) ->
        cell hp i j = Some 0)) /\
    (F = [] -> hp = {| index := []; columns := []; values := [] |}).
Proof.
  intros F. eexists. split; [apply heat_pivot_eq|]. cbn [index columns].
  assert (Hseg : Forall (fun r => has_key Segment r = true) F).
  { eapply Forall_impl; [|apply Forall_filter].
    intros r Hr. apply mask_keys in Hr. tauto. }
  assert (Hreg : Forall (fun r => has_key Region r = true) F).
  { eapply Forall_impl; [|apply Forall_filter].
    intros r Hr. apply mask_keys in Hr. tauto. }
  split; [apply heat_index_perm; exact Hseg|].
  split; [apply heat_columns_perm; exact Hreg|].
  split.
  { unfold cells, nunique. cbn [values].
    rewrite (grid_cells (pair_total F)), length_map, length_prod.
    rewrite (Permutation_length (heat_index_perm F Hseg)).
    rewrite (Permutation_length (heat_columns_perm F Hreg)).
    reflexivity. }
  split.
  { intros i j a b Hi Hj.
    assert (Hc : cell {| index := heat_index F; columns := heat_columns F;
                         values := map (fun x => map (fun c =>
                                     pair_total F (x, c)) (heat_columns F))
                                     (heat_index F) |} i j
                 = Some (pair_total F (a, b))).
    { exact (grid_cell (fun x c => pair_total F (x, c)) _ _ i j a b Hi Hj). }
    split; [exact Hc|].
    intros Hno. rewrite Hc, (pair_total_absent F a b Hno). reflexivity. }
  intros He. rewrite He. reflexivity.
Qed.

(** C2 does not hold over the regions and segments of the loaded frame,
    nor over those chosen in the controls.  With a date range that selects
    no row the pivot has no cell at all, where the frame has two regions
    and two segments; with only West chosen it is the single cell
    West x Consumer, and West x Corporate is not reported as 0. *)
Lemma heat_pivot_counterexample :
  (exists hp,
     heat_pivot (filtered_df three_lines before_first_order) = Some hp /\
     cells hp = [] /\
     length (cells hp)
     <> (nunique (map Region three_lines)
         * nunique (map Segment three_lines))%nat /\
     length (cells hp)
     <> (length (region before_first_order)
         * length (segment before_first_order))%nat) /\
  (exists hp,
     heat_pivot (filtered_df three_lines west_only) = Some hp /\
     index hp = ["West"%string] /\
     columns hp = ["Consumer"%string] /\
     cells hp = [20]).
Proof.
  split; eexists; (split; [reflexivity|]); repeat split;
    vm_compute; discriminate.
Qed.

(** ** The scenario of three order lines *)

Example three_lines_region_sales :
  region_sales (filtered_df three_lines all_labels)
  = [("East", 150); ("West", 200)]%string.
Proof. reflexivity. Qed.

Example three_lines_heat_pivot :
  heat_pivot (filtered_df three_lines all_labels)
  = Some {| index := ["East"; "West"]%string;
            columns := ["Consumer"; "Corporate"]%string;
            values := [[10; -5]; [20; 0]] |}.
Proof. reflexivity. Qed.

Example three_lines_kpis :
  draw_kpis (filtered_df three_lines all_labels)
  = {| total_sales := 350; total_profit := 25;
       avg_shipping := Some (15 # 3); total_orders := 3 |}.
Proof. reflexivity. Qed.

Example three_lines_top_states :
  @top_states stable_kind (filtered_df three_lines all_labels)
  = [("Utah", 20); ("Ohio", 5)]%string.
Proof. reflexivity. Qed.

Example stable_kind_keeps_ties :
  insertion_desc [("a", 1); ("b", 3); ("c", 1); ("d", 3); ("e", 2)]%string
  = [("b", 3); ("d", 3); ("e", 2); ("a", 1); ("c", 1)]%string.
Proof. reflexivity. Qed.


(** * Further properties of the filter *)

Lemma filter_none {A} (f : A -> bool) l :
  (forall x, In x l -> f x = false) -> filter f l = [].
Proof.
  induction l as [|x l IH]; simpl; intros H; auto.
  rewrite (H x) by auto. apply IH. auto.
Qed.

Lemma filter_filter_impl {A} (f g : A -> bool) l :
  (forall x, In x l -> f x = true -> g x = true) ->
  filter f (filter g l) = filter f l.
Proof.
  induction l as [|x l IH]; simpl; intros H; auto.
  destruct (g x) eqn:Eg; simpl.
  - rewrite IH by auto. reflexivity.
  - destruct (f x) eqn:Ef.
    + rewrite (H x) in Eg by auto. discriminate.
    + apply IH. auto.
Qed.

Lemma isin_incl c l1 l2 : incl l1 l2 -> isin c l1 = true -> isin c l2 = true.
Proof.
  intros Hi. rewrite !isin_member. intros [s [E H]]. exists s. auto.
Qed.

Lemma isin_nil c : isin c [] = false.
Proof. destruct c; reflexivity. Qed.

Lemma mask_incl P Q r :
  incl (region P) (region Q) ->
  incl (segment P) (segment Q) ->
  incl (category P) (category Q) ->
  date_le (fst (date_range Q)) (fst (date_range P)) ->
  date_le (snd (date_range P)) (snd (date_range Q)) ->
  mask P r = true -> mask Q r = true.
Proof.
  intros Hr Hs Hc Hlo Hhi. unfold mask. rewrite !andb_true_iff.
  intros [[[[H1 H2] H3] H4] H5].
  apply date_leb_le in Hlo, Hhi. rewrite <- midnight_leb in Hlo, Hhi.
  repeat split; try (eapply isin_incl; eassumption).
  - unfold ge_ts in *. destruct (Order_Date r); [|discriminate].
    eapply ts_leb_trans; eassumption.
  - unfold le_ts in *. destruct (Order_Date r); [|discriminate].
    eapply ts_leb_trans; eassumption.
Qed.

(** X1.  With nothing chosen in one of the three multiselects no row is
    selected, whatever the other controls hold. *)
Theorem empty_choice_selects_nothing (df : DataFrame) (P : Predicate) :
  region P = [] \/ segment P = [] \/ category P = [] ->
  filtered_df df P = [].
Proof.
  intros H. unfold filtered_df. apply filter_none. intros r _.
  unfold mask. destruct H as [E|[E|E]]; rewrite E, isin_nil;
    rewrite ?andb_false_r; reflexivity.
Qed.

Lemma empty_choice_witness :
  (region no_region = [] \/ segment no_region = [] \/ category no_region = [])
  /\ filtered_df three_lines no_region = [].
Proof.
  split; [left; reflexivity|].
  apply empty_choice_selects_nothing. left. reflexivity.
Defined.

(** X2.  Only the set of labels chosen in a multiselect counts: two
    settings that hold the same labels, in any order and any number of
    times, with the same date range, select the same rows. *)
Theorem selection_depends_on_label_sets (df : DataFrame) (P Q : Predicate) :
  incl (region P) (region Q) -> incl (region Q) (region P) ->
  incl (segment P) (segment Q) -> incl (segment Q) (segment P) ->
  incl (category P) (category Q) -> incl (category Q) (category P) ->
  date_range P = date_range Q ->
  filtered_df df P = filtered_df df Q.
Proof.
  intros R1 R2 S1 S2 C1 C2 D. unfold filtered_df. apply filter_ext.
  intros r. apply eq_true_iff_eq. split; apply mask_incl; auto;
    rewrite ?D; apply date_leb_le, date_leb_refl.
Qed.

Lemma selection_depends_on_label_sets_witness :
  filtered_df three_lines all_labels
  = filtered_df three_lines all_labels_shuffled.
Proof.
  apply selection_depends_on_label_sets;
    try reflexivity; intros x Hx; simpl in *; tauto.
Defined.

(** X3.  Narrowing the controls narrows the selection: when every set of
    [P] lies within the matching set of [Q] and the range of [P] within
    the range of [Q], the rows selected by [P] are among those selected by
    [Q], in the same order, and selecting by [Q] first changes nothing. *)
Theorem narrower_controls_narrow_selection
    (df : DataFrame) (P Q : Predicate) :
  incl (region P) (region Q) ->
  incl (segment P) (segment Q) ->
  incl (category P) (category Q) ->
  date_le (fst (date_range Q)) (fst (date_range P)) ->
  date_le (snd (date_range P)) (snd (date_range Q)) ->
  Subseq (filtered_df df P) (filtered_df df Q) /\
  filtered_df (filtered_df df Q) P = filtered_df df P.
Proof.
  intros Hr Hs Hc Hlo Hhi.
  assert (E : filtered_df (filtered_df df Q) P = filtered_df df P).
  { unfold filtered_df. apply filter_filter_impl.
    intros r _. apply mask_incl; assumption. }
  split; [|exact E].
  rewrite <- E. unfold filtered_df at 1. apply Subseq_filter.
Qed.

Lemma narrower_controls_witness :
  Subseq (filtered_df three_lines west_only)
         (filtered_df three_lines all_labels) /\
  filtered_df (filtered_df three_lines all_labels) west_only
  = filtered_df three_lines west_only.
Proof.
  apply narrower_controls_narrow_selection;
    try (intros x Hx; simpl in *; tauto);
    unfold date_le; simpl; discriminate.
Defined.

Lemma ts_leb_year a b : ts_leb a b = true -> year (date a) <= year (date b).
Proof. intros H. apply date_leb_year, ts_leb_date. exact H. Qed.

Lemma isin_In s values : isin (Some s) values = true -> In s values.
Proof.
  intros H. apply isin_member in H. destruct H as [x [E Hx]].
  injection E as ->. exact Hx.
Qed.

Lemma In_filtered_mask df P r : In r (filtered_df df P) -> mask P r = true.
Proof. unfold filtered_df. intros H. apply filter_In in H. tauto. Qed.

Lemma mask_parts P r :
  mask P r = true ->
  isin (Region r) (region P) = true /\
  isin (Segment r) (segment P) = true /\
  isin (Category r) (category P) = true /\
  ge_ts (Order_Date r) (midnight (fst (date_range P))) = true /\
  le_ts (Order_Date r) (midnight (snd (date_range P))) = true.
Proof. unfold mask. rewrite !andb_true_iff. tauto. Qed.

(** X4.  The views of a selection only show what the controls allow: each
    region of Sales by Region and of the heatmap is a chosen region, each
    segment of the heatmap a chosen segment, each category of the treemap
    a chosen category, and each year of the yearly trend lies between the
    year of the start and the year of the end of the date range. *)
Theorem views_show_chosen_labels (df : DataFrame) (P : Predicate) :
  let F := filtered_df df P in
  (forall k v, In (k, v) (region_sales F) -> In k (region P)) /\
  (forall y v, In (y, v) (year_sales F) ->
     year (fst (date_range P)) <= y <= year (snd (date_range P))) /\
  (forall c s v, In ((c, s), v) (cat_sales F) -> In c (category P)) /\
  (forall a b v, In ((a, b), v) (heat_data F) ->
     In a (region P) /\ In b (segment P)) /\
  (exists hp, heat_pivot F = Some hp /\
     incl (index hp) (region P) /\ incl (columns hp) (segment P)).
Proof.
  intros F. split; [|split; [|split; [|split]]].
  - intros k v Hin.
    destruct (groupby_sum_labels _ String.eqb_eq String.leb Region Sales F
                k v Hin) as [r [Hr Hk]].
    apply In_filtered_mask, mask_parts in Hr. rewrite Hk in Hr.
    apply isin_In. tauto.
  - intros y v Hin.
    destruct (groupby_sum_labels _ Z.eqb_eq Z.leb Year Sales F
                y v Hin) as [r [Hr Hk]].
    apply In_filtered_mask, mask_parts in Hr.
    destruct Hr as [_ [_ [_ [Hge Hle]]]].
    unfold Year in Hk. unfold ge_ts, le_ts in *.
    destruct (Order_Date r) as [d|]; [|discriminate].
    injection Hk as <-.
    split; [apply (ts_leb_year _ _ Hge) | apply (ts_leb_year _ _ Hle)].
  - intros c s v Hin.
    destruct (groupby_sum_labels _ pair_eqb_eq pair_leb
                (key2 Category Sub_Category) Sales F (c, s) v Hin)
      as [r [Hr Hk]].
    apply In_filtered_mask, mask_parts in Hr. unfold key2 in Hk.
    destruct (Category r) as [c'|]; [|discriminate].
    destruct (Sub_Category r); [|discriminate].
    injection Hk as -> _. apply isin_In. tauto.
  - intros a b v Hin.
    destruct (groupby_sum_labels _ pair_eqb_eq pair_leb
                (key2 Region Segment) Profit F (a, b) v Hin)
      as [r [Hr Hk]].
    apply In_filtered_mask, mask_parts in Hr. unfold key2 in Hk.
    destruct (Region r) as [a'|]; [|discriminate].
    destruct (Segment r) as [b'|]; [|discriminate].
    injection Hk as -> ->. split; apply isin_In; tauto.
  - eexists. split; [apply heat_pivot_eq|]. cbn [index columns]. split.
    + intros a Ha. apply In_heat_index in Ha.
      destruct Ha as [r [Hr [Hk _]]].
      apply In_filtered_mask, mask_parts in Hr. rewrite Hk in Hr.
      apply isin_In. tauto.
    + intros b Hb. apply In_heat_columns in Hb.
      destruct Hb as [r [Hr [Hk _]]].
      apply In_filtered_mask, mask_parts in Hr. rewrite Hk in Hr.
      apply isin_In. tauto.
Qed.

(** * Further properties of the default controls *)

Lemma ts_min_In l m : ts_min l = Some m -> In m l.
Proof.
  revert m. induction l as [|x l IH]; simpl; intros m H; [discriminate|].
  destruct (ts_min l) as [m'|].
  - injection H as <-. destruct (ts_leb x m'); auto.
  - injection H as <-. auto.
Qed.

Lemma default_predicate_parts df P :
  default_predicate df = Some P ->
  exists lo hi,
    ts_min (dropna (map Order_Date df)) = Some lo /\
    ts_max (dropna (map Order_Date df)) = Some hi /\
    date_range P = (date lo, date hi) /\
    region P = default_labels Region df /\
    segment P = default_labels Segment df /\
    category P = default_labels Category df.
Proof.
  unfold default_predicate. intros H.
  destruct (ts_min _) as [lo|]; [|discriminate].
  destruct (ts_max _) as [hi|]; [|discriminate].
  injection H as <-. exists lo, hi. simpl. auto 6.
Qed.

Lemma In_default_labels col df s :
  In s (default_labels col df) <-> exists r, In r df /\ col r = Some s.
Proof.
  unfold default_labels.
  rewrite (In_unique _ String.eqb_eq), In_dropna, in_map_iff.
  split; intros [r H]; exists r; tauto.
Qed.

(** X5.  The default of each multiselect lists every label present in its
    column once, and nothing else; the default date range is never
    inverted, every order date of the frame falls on one of its days, and
    none is before its start. *)
Theorem default_controls_cover_frame (df : DataFrame) (P : Predicate) :
  default_predicate df = Some P ->
  (NoDup (region P) /\ NoDup (segment P) /\ NoDup (category P)) /\
  (forall s, In s (region P) <-> exists r, In r df /\ Region r = Some s) /\
  (forall s, In s (segment P) <-> exists r, In r df /\ Segment r = Some s) /\
  (forall s, In s (category P) <-> exists r, In r df /\ Category r = Some s) /\
  date_le (fst (date_range P)) (snd (date_range P)) /\
  (forall r t, In r df -> Order_Date r = Some t ->
     date_le (fst (date_range P)) (date t) /\
     date_le (date t) (snd (date_range P)) /\
     ge_ts (Order_Date r) (midnight (fst (date_range P))) = true).
Proof.
  intros H. apply default_predicate_parts in H.
  destruct H as [lo [hi [Hlo [Hhi [Hr [-> [-> ->]]]]]]]. rewrite Hr.
  cbn [fst snd].
  split; [repeat split; apply (NoDup_unique _ String.eqb_eq)|].
  do 3 (split; [intros s; apply In_default_labels|]).
  split.
  - apply date_leb_le, ts_leb_date. eapply ts_max_ge; [exact Hhi|].
    apply ts_min_In. exact Hlo.
  - intros r t Hin Ht.
    assert (Hd : In t (dropna (map Order_Date df))).
    { apply In_dropna. rewrite <- Ht. apply in_map. exact Hin. }
    pose proof (ts_min_le _ _ _ Hlo Hd) as Hge.
    pose proof (ts_max_ge _ _ _ Hhi Hd) as Hle.
    split; [apply date_leb_le, ts_leb_date; exact Hge|].
    split; [apply date_leb_le, ts_leb_date; exact Hle|].
    rewrite Ht. unfold ge_ts.
    eapply ts_leb_trans; [apply midnight_first | exact Hge].
Qed.

Lemma default_controls_cover_witness :
  default_predicate late_order
  = Some {| region := ["East"; "West"]%string;
            segment := ["Consumer"; "Corporate"]%string;
            category := ["Furniture"]%string;
            date_range := (mkDate 2014 3 1, mkDate 2014 5 9) |} /\
  date_le (mkDate 2014 3 1) (mkDate 2014 5 9).
Proof.
  split; [reflexivity|].
  exact (proj1 (proj2 (proj2 (proj2 (proj2
           (default_controls_cover_frame late_order _ eq_refl)))))).
Defined.

(** X6.  On a frame where no row lacks a region, a segment, a category or
    an order date, and no order date carries a time of day, the default
    controls select every row: the dashboard opens on the whole frame. *)
Theorem default_controls_select_complete_frame
    (df : DataFrame) (P : Predicate) :
  default_predicate df = Some P ->
  forallb complete df = true ->
  filtered_df df P = df.
Proof.
  intros Hp Hall. unfold filtered_df. apply filter_all.
  apply Forall_forall. intros r Hr.
  rewrite forallb_forall in Hall. specialize (Hall r Hr).
  unfold complete in Hall. rewrite !andb_true_iff in Hall.
  destruct Hall as [[[H1 H2] H3] H4].
  rewrite (default_mask df P r Hp Hr), H1, H2, H3. simpl.
  rewrite (default_mask_midnight df P r Hp Hr).
  - unfold has_key. destruct (Order_Date r); [reflexivity | discriminate].
  - intros t Ht. rewrite Ht in H4. apply N.eqb_eq. exact H4.
Qed.

Lemma default_controls_select_witness :
  default_predicate two_lines = Some two_lines_defaults /\
  forallb complete two_lines = true /\
  filtered_df two_lines two_lines_defaults = two_lines.
Proof.
  split; [reflexivity|]. split; [reflexivity|].
  apply default_controls_select_complete_frame; reflexivity.
Defined.

(** An order placed during the last day is after the midnight the default
    range ends on: the default controls leave it out. *)
Example default_controls_drop_late_order :
  forall P, default_predicate late_order = Some P ->
  filtered_df late_order P
  = [order_line "CA-1" (mkDate 2014 3 1) "East" "Consumer"
       (Some "First Class"%string) (Some "Ohio"%string) 100 10].
Proof. intros P H. injection H as <-. reflexivity. Qed.

(** * Further properties of the indicators *)

Lemma dropna_app {A} (l1 l2 : list (option A)) :
  dropna (l1 ++ l2) = dropna l1 ++ dropna l2.
Proof.
  induction l1 as [|[x|] l1 IH]; simpl; rewrite ?IH; reflexivity.
Qed.

Lemma length_dropna_le {A} (l : list (option A)) :
  (length (dropna l) <= length l)%nat.
Proof. induction l as [|[x|] l IH]; simpl; lia. Qed.

Section UniqueFacts.
Context {K : Type} (eqb : K -> K -> bool).
Hypothesis eqb_eq : forall a b, eqb a b = true <-> a = b.

Lemma length_unique_from_le seen l :
  (length (unique_from eqb seen l) <= length l)%nat.
Proof.
  revert seen. induction l as [|x l IH]; intros seen; simpl; auto.
  destruct (mem eqb x seen); simpl.
  - specialize (IH seen). lia.
  - specialize (IH (x :: seen)). lia.
Qed.

Lemma unique_from_snoc_old seen l x :
  In x l \/ In x seen ->
  unique_from eqb seen (l ++ [x]) = unique_from eqb seen l.
Proof.
  revert seen. induction l as [|y l IH]; intros seen H; simpl.
  - destruct H as [[]|H]. apply (mem_In _ eqb_eq) in H. rewrite H.
    reflexivity.
  - destruct (mem eqb y seen) eqn:E.
    + apply IH. destruct H as [[->|H]|H]; auto.
      right. apply (mem_In _ eqb_eq). exact E.
    + f_equal. apply IH. simpl. destruct H as [[->|H]|H]; auto.
Qed.

Lemma unique_from_snoc_new seen l x :
  ~ In x l -> ~ In x seen ->
  unique_from eqb seen (l ++ [x]) = unique_from eqb seen l ++ [x].
Proof.
  revert seen. induction l as [|y l IH]; intros seen Hl Hs; simpl.
  - apply (mem_false _ eqb_eq) in Hs. rewrite Hs. reflexivity.
  - destruct (mem eqb y seen) eqn:E.
    + apply IH; auto. intros H. apply Hl. right. exact H.
    + simpl. f_equal. apply IH.
      * intros H. apply Hl. right. exact H.
      * intros [->|H]; [apply Hl; left; reflexivity | auto].
Qed.
End UniqueFacts.

(** X8.  The number of orders counts each order id once: it never exceeds
    the number of selected rows, a further line of an order already seen,
    or a line without an order id, leaves it unchanged, and a line of a
    new order adds one. *)
Theorem total_orders_counts_each_order_once (F : DataFrame) (r : Row) :
  (total_orders (draw_kpis F) <= length F)%nat /\
  (Order_ID r = None \/ In (Order_ID r) (map Order_ID F) ->
   total_orders (draw_kpis (F ++ [r])) = total_orders (draw_kpis F)) /\
  (forall id, Order_ID r = Some id -> ~ In (Some id) (map Order_ID F) ->
   total_orders (draw_kpis (F ++ [r])) = S (total_orders (draw_kpis F))).
Proof.
  unfold draw_kpis, nunique. cbn [total_orders]. split; [|split].
  - unfold unique.
    pose proof (length_unique_from_le String.eqb []
                  (dropna (map Order_ID F))).
    pose proof (length_dropna_le (map Order_ID F)).
    rewrite length_map in *. lia.
  - intros H. rewrite map_app, dropna_app. simpl.
    destruct (Order_ID r) as [id|] eqn:E; simpl.
    + unfold unique. rewrite (unique_from_snoc_old _ String.eqb_eq); auto.
      left. apply In_dropna. destruct H as [H|H]; [discriminate|exact H].
    + rewrite app_nil_r. reflexivity.
  - intros id E Hnew. rewrite map_app, dropna_app. simpl. rewrite E. simpl.
    unfold unique. rewrite (unique_from_snoc_new _ String.eqb_eq).
    + rewrite length_app. simpl. lia.
    + rewrite In_dropna. exact Hnew.
    + simpl. tauto.
Qed.

(** * Further properties of the grouped views *)

Lemma Z_leb_total a b : (a <=? b) = true \/ (b <=? a) = true.
Proof. destruct (Z.leb_spec a b); [left|right; apply Z.leb_le]; auto; lia. Qed.

Lemma pair_leb_total a b : pair_leb a b = true \/ pair_leb b a = true.
Proof.
  unfold pair_leb. destruct (String.eqb (fst a) (fst b)) eqn:E.
  - rewrite String.eqb_sym in E. rewrite E. apply String.leb_total.
  - rewrite String.eqb_sym in E. rewrite E. apply String.leb_total.
Qed.

Lemma groupby_sum_grouped {R K} (eqb leb : K -> K -> bool)
    (key : R -> option K) (val : R -> option Z) rows :
  (forall a b, eqb a b = true <-> a = b) ->
  (forall a b, leb a b = true \/ leb b a = true) ->
  grouped_by eqb leb key val rows (groupby_sum eqb leb key val rows).
Proof.
  intros eqb_eq leb_total. unfold grouped_by.
  rewrite map_fst_groupby_sum.
  split; [apply (NoDup_group_keys _ eqb_eq)|].
  split; [apply sort_labels_sorted; exact leb_total|].
  split.
  { unfold groupby_sum, group_keys. rewrite length_map.
    apply Permutation_length, sort_labels_perm. }
  split; [intros k; apply (In_group_keys _ eqb_eq)|].
  intros k v Hin. apply (groupby_sum_value eqb leb key val rows k v Hin).
Qed.

(** X9.  Each grouped table has one line per label present in the
    selection, the labels distinct and in ascending order, and each line
    holds the sum of the field over the rows of its label, missing amounts
    counting for nothing. *)
Theorem grouped_views_structure (F : DataFrame) :
  grouped_by String.eqb String.leb Region Sales F (region_sales F) /\
  grouped_by Z.eqb Z.leb Year Sales F (year_sales F) /\
  grouped_by String.eqb String.leb State Profit F (state_profit F) /\
  grouped_by pair_eqb pair_leb (key2 Category Sub_Category) Sales F
    (cat_sales F) /\
  grouped_by String.eqb String.leb Ship_Mode Sales F (ship_sales F) /\
  grouped_by pair_eqb pair_leb (key2 Region Segment) Profit F (heat_data F).
Proof.
  repeat split;
    first [ apply (groupby_sum_grouped String.eqb String.leb);
            [exact String.eqb_eq | exact String.leb_total]
          | apply (groupby_sum_grouped Z.eqb Z.leb);
            [exact Z.eqb_eq | exact Z_leb_total]
          | apply (groupby_sum_grouped pair_eqb pair_leb);
            [exact pair_eqb_eq | exact pair_leb_total] ].
Qed.

(** * Further properties of the top-ten view *)

Lemma length_state_profit F :
  length (state_profit F) = nunique (map State F).
Proof.
  unfold state_profit, groupby_label, groupby_sum, group_keys, nunique.
  rewrite length_map. apply Permutation_length, sort_labels_perm.
Qed.

Lemma NoDup_state_labels F : NoDup (map fst (state_profit F)).
Proof.
  unfold state_profit, groupby_label. rewrite map_fst_groupby_sum.
  apply (NoDup_group_keys _ String.eqb_eq).
Qed.

Lemma hd_error_head {A} n (l : list A) :
  hd_error (head (S n) l) = hd_error l.
Proof. destruct l; reflexivity. Qed.

Lemma state_profit_nil_iff F :
  state_profit F = [] <-> forall r, In r F -> State r = None.
Proof.
  split.
  - intros E r Hr. destruct (State r) as [s|] eqn:Es; auto.
    assert (Hin : In s (map fst (state_profit F))).
    { unfold state_profit, groupby_label. rewrite map_fst_groupby_sum.
      apply (In_group_keys _ String.eqb_eq). eauto. }
    rewrite E in Hin. destruct Hin.
  - intros H. destruct (state_profit F) as [|[s v] l] eqn:E; auto.
    assert (Hin : In s (map fst (state_profit F)))
      by (rewrite E; left; reflexivity).
    unfold state_profit, groupby_label in Hin.
    rewrite map_fst_groupby_sum in Hin.
    apply (In_group_keys _ String.eqb_eq) in Hin.
    destruct Hin as [r [Hr Hs]]. rewrite (H r Hr) in Hs. discriminate.
Qed.

(** X10.  The top-ten view has exactly as many rows as there are states in
    the selection, up to ten, no state twice; its first row has the
    largest summed profit of all states, shown or not; and it is empty
    only when no selected row has a state. *)
Theorem top_states_size_and_leader {K : SortKind} (F : DataFrame) :
  length (top_states F) = Nat.min 10 (nunique (map State F)) /\
  NoDup (map fst (top_states F)) /\
  (forall first, hd_error (top_states F) = Some first ->
     forall s v, In (s, v) (state_profit F) -> v <= snd first) /\
  (top_states F = [] <-> forall r, In r F -> State r = None).
Proof.
  split; [|split; [|split]].
  - unfold top_states, head.
    rewrite length_firstn, sort_values_length, length_state_profit.
    reflexivity.
  - pose proof (head_prefix 10 (sort_values (state_profit F))) as [Hs _].
    fold (top_states F) in Hs.
    assert (Hnd : NoDup (map fst (sort_values (state_profit F)))).
    { eapply Permutation_NoDup; [|apply (NoDup_state_labels F)].
      apply Permutation_map, Permutation_sym, sort_values_perm. }
    rewrite Hs, map_app in Hnd. eapply NoDup_app_remove_r. exact Hnd.
  - intros first Hhd s v Hin. unfold top_states in Hhd.
    rewrite hd_error_head in Hhd.
    apply (proj2 (sort_values_In _ _)) in Hin.
    pose proof (sort_values_strongly (state_profit F)) as Hss.
    destruct (sort_values (state_profit F)) as [|x l]; [discriminate|].
    injection Hhd as ->. inversion Hss as [|? ? _ Hall]; subst.
    destruct Hin as [->|Hin]; [simpl; lia|].
    rewrite Forall_forall in Hall. exact (Hall _ Hin).
  - rewrite <- state_profit_nil_iff. unfold top_states. split.
    + intros E. destruct (state_profit F) as [|e l] eqn:Esp; auto.
      exfalso.
      assert (Hin : In e (sort_values (e :: l)))
        by (apply sort_values_In; left; reflexivity).
      destruct (sort_values (e :: l)); [destruct Hin | discriminate].
    + intros ->. rewrite sort_values_nil. reflexivity.
Qed.

Lemma sorted_perm_unique (l1 l2 : list (string * Z)) :
  Permutation l1 l2 ->
  StronglySorted value_geb l1 -> StronglySorted value_geb l2 ->
  NoDup (map snd l1) -> l1 = l2.
Proof.
  revert l2. induction l1 as [|x t1 IH]; intros l2 Hp H1 H2 Hnd.
  - apply Permutation_nil in Hp. auto.
  - destruct l2 as [|y t2];
      [apply Permutation_sym, Permutation_nil in Hp; discriminate|].
    assert (Hxy : x = y).
    { assert (Hx : In x (y :: t2))
        by (eapply Permutation_in; [exact Hp | left; reflexivity]).
      assert (Hy : In y (x :: t1))
        by (eapply Permutation_in;
            [apply Permutation_sym; exact Hp | left; reflexivity]).
      destruct Hx as [Hx|Hx]; [auto|].
      destruct Hy as [Hy|Hy]; [auto|].
      inversion H1 as [|? ? _ F1]; inversion H2 as [|? ? _ F2]; subst.
      rewrite Forall_forall in F1, F2.
      pose proof (F1 _ Hy) as L1. pose proof (F2 _ Hx) as L2.
      unfold value_geb in L1, L2.
      simpl in Hnd. inversion Hnd as [|? ? Hn _]; subst.
      exfalso. apply Hn. replace (snd x) with (snd y) by lia.
      apply in_map. exact Hy. }
    subst y. f_equal. apply IH.
    + eapply Permutation_cons_inv. exact Hp.
    + inversion H1; assumption.
    + inversion H2; assumption.
    + simpl in Hnd. inversion Hnd; assumption.
Qed.

(** X11.  When no two states have the same summed profit the top-ten view
    does not depend on the sorting algorithm: every kind of sort gives the
    same rows in the same order. *)
Theorem top_states_kind_independent (K1 K2 : SortKind) (F : DataFrame) :
  NoDup (map snd (state_profit F)) ->
  @top_states K1 F = @top_states K2 F.
Proof.
  intros Hnd. unfold top_states. f_equal.
  apply sorted_perm_unique.
  - rewrite (@sort_values_perm K1), (@sort_values_perm K2). reflexivity.
  - apply sort_values_strongly.
  - apply sort_values_strongly.
  - eapply Permutation_NoDup; [|exact Hnd].
    apply Permutation_map, Permutation_sym, sort_values_perm.
Qed.

Lemma top_states_kind_independent_witness :
  @top_states stable_kind (filtered_df three_lines all_labels)
  = @top_states reversed_kind (filtered_df three_lines all_labels).
Proof.
  apply top_states_kind_independent. vm_compute.
  repeat constructor; simpl; intuition discriminate.
Defined.

(** * Further properties of the heatmap *)

Lemma Sorted_heat_index F :
  Sorted (fun a b => String.leb a b = true) (heat_index F).
Proof. apply sort_labels_sorted. exact String.leb_total. Qed.

Lemma Sorted_heat_columns F :
  Sorted (fun a b => String.leb a b = true) (heat_columns F).
Proof. apply sort_labels_sorted. exact String.leb_total. Qed.

(** X12.  The pivot of the heatmap never raises, whatever the frame, and
    what it hands to the chart is a grid: one line of [z] per label of
    [y], each line with one value per label of [x], the labels of each
    axis distinct and in ascending order. *)
Theorem heat_pivot_is_a_grid (F : DataFrame) :
  exists hp,
    heat_pivot F = Some hp /\
    length (values hp) = length (index hp) /\
    Forall (fun line => length line = length (columns hp)) (values hp) /\
    NoDup (index hp) /\ NoDup (columns hp) /\
    Sorted (fun a b => String.leb a b = true) (index hp) /\
    Sorted (fun a b => String.leb a b = true) (columns hp).
Proof.
  eexists. split; [apply heat_pivot_eq|]. cbn [index columns values].
  split; [apply length_map|].
  split.
  { apply Forall_forall. intros line Hl. apply in_map_iff in Hl.
    destruct Hl as [i [<- _]]. apply length_map. }
  split; [apply NoDup_heat_index|].
  split; [apply NoDup_heat_columns|].
  split; [apply Sorted_heat_index | apply Sorted_heat_columns].
Qed.

Lemma In_heat_data F a b v :
  In ((a, b), v) (heat_data F) <->
  In (a, b) (heat_keys F) /\ v = pair_total F (a, b).
Proof.
  unfold heat_data, groupby_pair, groupby_sum. fold (heat_keys F).
  rewrite in_map_iff. split.
  - intros [k [E Hk]]. injection E as -> <-. auto.
  - intros [Hk ->]. exists (a, b). auto.
Qed.

Lemma heat_keys_axes F a b :
  In (a, b) (heat_keys F) -> In a (heat_index F) /\ In b (heat_columns F).
Proof.
  intros H. unfold heat_index, heat_columns.
  rewrite !In_sort_labels, !(In_unique _ String.eqb_eq).
  split; [apply (in_map fst) in H | apply (in_map snd) in H]; exact H.
Qed.

(** X13.  The pivot loses nothing of the grouped profits and adds
    nothing: every (region, segment, profit) line of the grouped table is
    found in the cell of its region and its segment, and a cell holds
    either the profit of such a line or, when the table has no line for
    its pair, the 0 that [fillna] puts there. *)
Theorem heat_pivot_keeps_heat_data (F : DataFrame) :
  exists hp,
    heat_pivot F = Some hp /\
    (forall a b v, In ((a, b), v) (heat_data F) ->
       exists i j,
         nth_error (index hp) i = Some a /\
         nth_error (columns hp) j = Some b /\
         cell hp i j = Some v) /\
    (forall i j a b v,
       nth_error (index hp) i = Some a ->
       nth_error (columns hp) j = Some b ->
       cell hp i j = Some v ->
       In ((a, b), v) (heat_data F) \/
       (v = 0 /\ forall w, ~ In ((a, b), w) (heat_data F))).
Proof.
  eexists. split; [apply heat_pivot_eq|]. cbn [index columns]. split.
  - intros a b v Hin. apply In_heat_data in Hin. destruct Hin as [Hk ->].
    destruct (heat_keys_axes F a b Hk) as [Ha Hb].
    apply In_nth_error in Ha. destruct Ha as [i Hi].
    apply In_nth_error in Hb. destruct Hb as [j Hj].
    exists i, j. split; [exact Hi|]. split; [exact Hj|].
    exact (grid_cell (fun x c => pair_total F (x, c)) _ _ i j a b Hi Hj).
  - intros i j a b v Hi Hj Hc.
    pose proof (grid_cell (fun x c => pair_total F (x, c)) _ _ i j a b Hi Hj)
      as Hg.
    unfold cell in Hc, Hg. cbn [values] in Hc, Hg. rewrite Hg in Hc.
    injection Hc as <-.
    destruct (mem pair_eqb (a, b) (heat_keys F)) eqn:E.
    + left. apply In_heat_data. split; auto.
      apply (mem_In _ pair_eqb_eq). exact E.
    + right. apply (mem_false _ pair_eqb_eq) in E. split.
      * apply (group_total_absent _ pair_eqb_eq pair_leb). exact E.
      * intros w Hw. apply In_heat_data in Hw. tauto.
Qed.

Lemma key_is_key2 k1 k2 a b r :
  key_is pair_eqb (key2 k1 k2) (a, b) r
  = key_is String.eqb k1 a r && key_is String.eqb k2 b r.
Proof.
  unfold key_is, key2, pair_eqb.
  destruct (k1 r), (k2 r); simpl; rewrite ?andb_false_r; reflexivity.
Qed.

Lemma filter_filter_and {A} (f g : A -> bool) l :
  filter f (filter g l) = filter (fun x => g x && f x) l.
Proof.
  induction l as [|x l IH]; simpl; auto.
  destruct (g x); simpl; [destruct (f x)|]; rewrite IH; reflexivity.
Qed.

Lemma pair_total_line F a c :
  pair_total F (a, c)
  = group_total String.eqb Segment Profit
      (filter (key_is String.eqb Region a) F) c.
Proof.
  unfold pair_total, group_total. rewrite filter_filter_and.
  do 2 f_equal. apply filter_ext. intros r. apply key_is_key2.
Qed.

Lemma pair_total_column F a c :
  pair_total F (a, c)
  = group_total String.eqb Region Profit
      (filter (key_is String.eqb Segment c) F) a.
Proof.
  unfold pair_total, group_total. rewrite filter_filter_and.
  do 2 f_equal. apply filter_ext. intros r.
  rewrite key_is_key2. apply andb_comm.
Qed.

Lemma key_is_Some (col : Row -> option string) a r :
  key_is String.eqb col a r = true <-> col r = Some a.
Proof.
  unfold key_is. destruct (col r) as [x|].
  - rewrite String.eqb_eq. split; congruence.
  - split; discriminate.
Qed.

(** X14.  When the additions of profits are exact, the heatmap agrees
    with the totals by region and by segment: the cells of the line of a
    region add up to the profit of the rows of that region which have a
    segment, and the cells of the column of a segment to the profit of the
    rows of that segment which have a region. *)
Theorem heat_pivot_margins (F : DataFrame) :
  exact_amounts (map Profit F) ->
  exists hp,
    heat_pivot F = Some hp /\
    (forall i a line,
       nth_error (index hp) i = Some a ->
       nth_error (values hp) i = Some line ->
       total line
       = sum_skipna (map Profit
           (filter (fun r => key_is String.eqb Region a r
                             && has_key Segment r) F))) /\
    (forall j b,
       nth_error (columns hp) j = Some b ->
       total (column_cells hp j)
       = sum_skipna (map Profit
           (filter (fun r => key_is String.eqb Segment b r
                             && has_key Region r) F))).
Proof.
  intros _. eexists. split; [apply heat_pivot_eq|].
  unfold column_cells. cbn [index columns values]. split.
  - intros i a line Hi Hl.
    rewrite (map_nth_error _ _ _ Hi) in Hl. injection Hl as <-.
    rewrite (map_ext _ _ (pair_total_line F a)).
    rewrite (total_group_totals _ String.eqb_eq).
    + rewrite filter_filter_and. reflexivity.
    + apply NoDup_heat_columns.
    + intros r c Hr Hc. apply filter_In in Hr. destruct Hr as [Hr Ha].
      apply key_is_Some in Ha. apply In_heat_columns.
      exists r. unfold has_key. rewrite Ha. auto.
  - intros j b Hj. rewrite map_map.
    rewrite (map_ext _ (fun a => pair_total F (a, b))).
    + rewrite (map_ext _ _ (fun a => pair_total_column F a b)).
      rewrite (total_group_totals _ String.eqb_eq).
      * rewrite filter_filter_and. reflexivity.
      * apply NoDup_heat_index.
      * intros r a Hr Ha. apply filter_In in Hr. destruct Hr as [Hr Hb].
        apply key_is_Some in Hb. apply In_heat_index.
        exists r. unfold has_key. rewrite Hb. auto.
    + intros a. apply nth_error_nth.
      exact (map_nth_error (fun c => pair_total F (a, c)) _ _ Hj).
Qed.

Lemma heat_pivot_margins_witness :
  exact_amounts (map Profit three_lines) /\
  exists hp,
    heat_pivot three_lines = Some hp /\
    values hp = [[10; -5]; [20; 0]] /\
    total (column_cells hp 0)
    = sum_skipna (map Profit
        (filter (fun r => key_is String.eqb Segment "Consumer"%string r
                          && has_key Region r) three_lines)).
Proof.
  assert (He : exact_amounts (map Profit three_lines))
    by (vm_compute; discriminate).
  split; [exact He|].
  destruct (heat_pivot_margins three_lines He) as [hp [Hp [_ Hc]]].
  exists hp. split; [exact Hp|].
  assert (E : hp = {| index := ["East"; "West"]%string;
                      columns := ["Consumer"; "Corporate"]%string;
                      values := [[10; -5]; [20; 0]] |})
    by (vm_compute in Hp; congruence).
  split; [rewrite E; reflexivity|].
  apply Hc. rewrite E. reflexivity.
Defined.

(** * Further properties of the script over the store *)

(** X15.  On the overview page the year column is written to the copy:
    once the page is drawn the selection is stored as the filter left it,
    the copy holds the same rows with the year of each order date beside
    them, these two frames are all that was added to the store, and the
    yearly trend read from the stored column is the grouping of the
    selected rows by the year of their order date. *)
Theorem year_column_goes_to_the_copy
    {K : SortKind} (h : Store) (df : addr) (f : Frame) (P : Predicate) :
  nth_error h df = Some f ->
  exists out h',
    dashboard General_Overview df P h = (Some (length h, inl out), h') /\
    h' = h ++ [frame_mask f P; with_Year (frame_mask f P)] /\
    nth_error h' (length h) = Some (frame_mask f P) /\
    (frame_Year f = None -> frame_Year (frame_mask f P) = None) /\
    nth_error h' (S (length h))
    = Some {| frame_rows := filtered_df (frame_rows f) P;
              frame_Year :=
                Some (map Year (filtered_df (frame_rows f) P)) |} /\
    ov_year_sales out = year_sales (filtered_df (frame_rows f) P).
Proof.
  intros H. eexists. eexists.
  split; [apply (dashboard_run General_Overview); exact H|].
  cbn [store_after]. split; [reflexivity|].
  split.
  { rewrite nth_error_app2 by lia. rewrite Nat.sub_diag. reflexivity. }
  split; [intros E; unfold frame_mask; cbn [frame_Year]; rewrite E;
          reflexivity|].
  split; [|reflexivity].
  rewrite nth_error_app2 by lia.
  replace (S (length h) - length h)%nat with 1%nat by lia. reflexivity.
Qed.

Lemma year_column_witness :
  nth_error [mkFrame three_lines None] O = Some (mkFrame three_lines None) /\
  exists out h',
    @dashboard stable_kind General_Overview O all_labels
      [mkFrame three_lines None] = (Some (1%nat, inl out), h') /\
    nth_error h' 1 = Some (mkFrame three_lines None) /\
    ov_year_sales out = [(2014, 150); (2015, 200)].
Proof.
  split; [reflexivity|].
  destruct (@year_column_goes_to_the_copy stable_kind
              [mkFrame three_lines None] O (mkFrame three_lines None)
              all_labels eq_refl)
    as [out [h' [Hrun [_ [Hsel [_ [_ Hy]]]]]]].
  exists out, h'. split; [exact Hrun|]. split; [exact Hsel | exact Hy].
Defined.

Lemma marker_size_refused F r :
  In r F ->
  Sales r = None \/ (exists v, Sales r = Some v /\ v < 0) ->
  forallb marker_size_ok F = false.
Proof.
  intros Hin Hbad. destruct (forallb marker_size_ok F) eqn:E; auto.
  rewrite forallb_forall in E. specialize (E r Hin).
  unfold marker_size_ok in E. destruct Hbad as [Hn|[v [Hv Hneg]]].
  - rewrite Hn in E. discriminate.
  - rewrite Hv in E. apply Z.leb_le in E. lia.
Qed.

(** X16.  A selected row whose sales are missing or negative stops the
    detailed page: the scatter plot, which sizes its markers by the sales,
    raises.  The selection has been stored by then and nothing else was
    added to the store.  The overview page of the same selection is
    drawn. *)
Theorem bad_marker_size_stops_detailed_page
    {K : SortKind} (h : Store) (df : addr) (f : Frame) (P : Predicate)
    (r : Row) :
  nth_error h df = Some f ->
  In r (filtered_df (frame_rows f) P) ->
  Sales r = None \/ (exists v, Sales r = Some v /\ v < 0) ->
  dashboard Detailed_Analysis df P h = (None, h ++ [frame_mask f P]) /\
  exists h',
    dashboard General_Overview df P h
    = (Some (length h, inl (overview_of (filtered_df (frame_rows f) P))),
       h').
Proof.
  intros H Hin Hbad. split.
  - rewrite (dashboard_run Detailed_Analysis h df f P H).
    unfold result_of. cbn [charts_accept store_after].
    rewrite (marker_size_refused _ r Hin Hbad). reflexivity.
  - eexists. apply (dashboard_run General_Overview). exact H.
Qed.

Lemma bad_marker_size_witness :
  nth_error [mkFrame with_return None] O = Some (mkFrame with_return None) /\
  @dashboard stable_kind Detailed_Analysis O all_labels
    [mkFrame with_return None]
  = (None, [mkFrame with_return None; mkFrame with_return None]).
Proof.
  split; [reflexivity|].
  refine (proj1 (@bad_marker_size_stops_detailed_page stable_kind
                   [mkFrame with_return None] O (mkFrame with_return None)
                   all_labels
                   (order_line "CA-2" (mkDate 2014 5 9) "East" "Corporate"
                      (Some "Same Day"%string) (Some "Ohio"%string)
                      (-50) (-5))
                   eq_refl _ _)).
  - right. left. reflexivity.
  - right. exists (-50). split; [reflexivity | lia].
Defined.

(** * The order of the rows *)

Lemma Permutation_filter {A} (f : A -> bool) l l' :
  Permutation l l' -> Permutation (filter f l) (filter f l').
Proof.
  induction 1 as [|x l l' _ IH|x y l|l l' l'' _ IH1 _ IH2]; simpl.
  - constructor.
  - destruct (f x); auto.
  - destruct (f x), (f y); auto. apply perm_swap.
  - eapply Permutation_trans; eassumption.
Qed.

Lemma sum_skipna_perm l l' : Permutation l l' -> sum_skipna l = sum_skipna l'.
Proof.
  induction 1 as [|[x|] l l' _ IH|[x|] [y|] l|l l' l'' _ IH1 _ IH2];
    simpl; lia.
Qed.

Lemma dropna_perm {A} (l l' : list (option A)) :
  Permutation l l' -> Permutation (dropna l) (dropna l').
Proof.
  induction 1 as [|[x|] l l' _ IH|[x|] [y|] l|l l' l'' _ IH1 _ IH2];
    simpl; auto.
  - apply perm_swap.
  - eapply Permutation_trans; eassumption.
Qed.

Lemma mean_perm l l' : Permutation l l' -> mean l = mean l'.
Proof.
  intros H. unfold mean.
  pose proof (dropna_perm _ _ H) as Hd.
  pose proof (Permutation_length Hd) as Hl.
  rewrite (sum_skipna_perm _ _ H).
  destruct (dropna l), (dropna l'); try discriminate; auto.
  rewrite Hl. reflexivity.
Qed.

Lemma nunique_perm l l' : Permutation l l' -> nunique l = nunique l'.
Proof.
  intros H. unfold nunique. apply Permutation_length, NoDup_Permutation.
  - apply (NoDup_unique _ String.eqb_eq).
  - apply (NoDup_unique _ String.eqb_eq).
  - intros x. rewrite !(In_unique _ String.eqb_eq).
    apply dropna_perm in H.
    split; apply Permutation_in; [|apply Permutation_sym]; exact H.
Qed.

Section SortedUnique.
Context {K : Type} (leb : K -> K -> bool).
Hypothesis leb_antisym : forall a b, leb a b = true -> leb b a = true -> a = b.
Hypothesis leb_trans :
  forall a b c, leb a b = true -> leb b c = true -> leb a c = true.

Lemma sorted_labels_unique l1 l2 :
  Sorted (fun a b => leb a b = true) l1 ->
  Sorted (fun a b => leb a b = true) l2 ->
  NoDup l1 -> NoDup l2 ->
  (forall x, In x l1 <-> In x l2) -> l1 = l2.
Proof.
  intros S1 S2.
  apply Sorted_StronglySorted in S1; [|intros a b c; apply leb_trans].
  apply Sorted_StronglySorted in S2; [|intros a b c; apply leb_trans].
  revert l2 S2. induction S1 as [|x t1 St1 IH F1]; intros l2 S2 N1 N2 Hin.
  - destruct l2 as [|y t2]; auto.
    destruct (proj2 (Hin y)). left. reflexivity.
  - destruct S2 as [|y t2 St2 F2].
    { destruct (proj1 (Hin x)). left. reflexivity. }
    rewrite Forall_forall in F1, F2.
    assert (Hxy : x = y).
    { destruct (proj1 (Hin x) (or_introl eq_refl)) as [E|Hx]; [auto|].
      destruct (proj2 (Hin y) (or_introl eq_refl)) as [E|Hy]; [auto|].
      apply leb_antisym; auto. }
    subst y. f_equal.
    inversion N1 as [|? ? Nx1 Nt1]; inversion N2 as [|? ? Nx2 Nt2]; subst.
    apply IH; auto. intros z. split; intros Hz.
    + destruct (proj1 (Hin z) (or_intror Hz)) as [E|H]; auto.
      subst z. contradiction.
    + destruct (proj2 (Hin z) (or_intror Hz)) as [E|H]; auto.
      subst z. contradiction.
Qed.

Context (eqb : K -> K -> bool).
Hypothesis eqb_eq : forall a b, eqb a b = true <-> a = b.
Hypothesis leb_total : forall a b, leb a b = true \/ leb b a = true.

Lemma groupby_sum_perm {R} (key : R -> option K) (val : R -> option Z)
    rows rows' :
  Permutation rows rows' ->
  groupby_sum eqb leb key val rows = groupby_sum eqb leb key val rows'.
Proof.
  intros H. unfold groupby_sum.
  assert (Hk : group_keys eqb leb key rows = group_keys eqb leb key rows').
  { apply sorted_labels_unique.
    - apply sort_labels_sorted. exact leb_total.
    - apply sort_labels_sorted. exact leb_total.
    - apply (NoDup_group_keys _ eqb_eq).
    - apply (NoDup_group_keys _ eqb_eq).
    - intros k. rewrite !(In_group_keys _ eqb_eq).
      split; intros [r [Hr Hkey]]; exists r; split; auto;
        eapply Permutation_in; try exact Hr;
        [|apply Permutation_sym]; exact H. }
  rewrite Hk. apply map_ext. intros k. f_equal. unfold group_total.
  apply sum_skipna_perm, Permutation_map, Permutation_filter. exact H.
Qed.
End SortedUnique.

Lemma string_leb_spec a b :
  String.leb a b = true <-> a = b \/ OrderedTypeEx.String_as_OT.lt a b.
Proof.
  unfold String.leb.
  pose proof (OrderedTypeEx.String_as_OT.cmp_eq a b) as He.
  pose proof (OrderedTypeEx.String_as_OT.cmp_lt a b) as Hl.
  unfold OrderedTypeEx.String_as_OT.cmp in *.
  destruct (String.compare a b); split; auto.
  - intros _. left. apply He. reflexivity.
  - intros _. right. apply Hl. reflexivity.
  - discriminate.
  - intros [E|L]; [apply He in E | apply Hl in L]; discriminate.
Qed.

Lemma string_leb_trans a b c :
  String.leb a b = true -> String.leb b c = true -> String.leb a c = true.
Proof.
  rewrite !string_leb_spec. intros [->|H1] [->|H2]; auto.
  right. eapply OrderedTypeEx.String_as_OT.lt_trans; eassumption.
Qed.

Lemma Z_leb_antisym a b : (a <=? b) = true -> (b <=? a) = true -> a = b.
Proof. rewrite !Z.leb_le. lia. Qed.

Lemma Z_leb_trans a b c :
  (a <=? b) = true -> (b <=? c) = true -> (a <=? c) = true.
Proof. rewrite !Z.leb_le. lia. Qed.

Lemma pair_leb_antisym a b :
  pair_leb a b = true -> pair_leb b a = true -> a = b.
Proof.
  unfold pair_leb. destruct a as [a1 a2], b as [b1 b2]. simpl.
  rewrite (String.eqb_sym b1 a1).
  destruct (String.eqb a1 b1) eqn:E; intros H1 H2.
  - apply String.eqb_eq in E. subst.
    f_equal. apply String.leb_antisym; assumption.
  - pose proof (String.leb_antisym _ _ H1 H2) as E'. subst.
    rewrite String.eqb_refl in E. discriminate.
Qed.

Lemma pair_leb_trans a b c :
  pair_leb a b = true -> pair_leb b c = true -> pair_leb a c = true.
Proof.
  unfold pair_leb. destruct a as [a1 a2], b as [b1 b2], c as [c1 c2]. simpl.
  destruct (String.eqb a1 b1) eqn:E1.
  - apply String.eqb_eq in E1. subst b1.
    destruct (String.eqb a1 c1); [apply string_leb_trans | auto].
  - destruct (String.eqb b1 c1) eqn:E2.
    + apply String.eqb_eq in E2. subst c1. rewrite E1. auto.
    + intros H1 H2. destruct (String.eqb a1 c1) eqn:E3.
      * apply String.eqb_eq in E3. subst c1.
        pose proof (String.leb_antisym _ _ H1 H2). subst.
        rewrite String.eqb_refl in E1. discriminate.
      * eapply string_leb_trans; eassumption.
Qed.

(** X17.  The dashboard does not depend on the order of the rows of the
    loaded frame.  Two frames holding the same rows yield selections
    holding the same rows, the same number of orders, and grouped tables
    with the same labels in the same order; when the additions of the
    sales, profits and shipping costs are exact, the indicators and every
    table, the top-ten view and the pivot included, are the same line for
    line. *)
Theorem views_ignore_row_order
    {K : SortKind} (df df' : DataFrame) (P : Predicate) :
  Permutation df df' ->
  let F := filtered_df df P in
  let F' := filtered_df df' P in
  Permutation F F' /\
  total_orders (draw_kpis F) = total_orders (draw_kpis F') /\
  (map fst (region_sales F) = map fst (region_sales F') /\
   map fst (year_sales F) = map fst (year_sales F') /\
   map fst (cat_sales F) = map fst (cat_sales F') /\
   map fst (ship_sales F) = map fst (ship_sales F') /\
   map fst (heat_data F) = map fst (heat_data F')) /\
  (exact_amounts (map Sales F) -> exact_amounts (map Profit F) ->
   exact_amounts (map Shipping_Cost F) ->
   draw_kpis F = draw_kpis F' /\
   region_sales F = region_sales F' /\
   year_sales F = year_sales F' /\
   top_states F = top_states F' /\
   cat_sales F = cat_sales F' /\
   ship_sales F = ship_sales F' /\
   heat_data F = heat_data F' /\
   heat_pivot F = heat_pivot F').
Proof.
  intros H F F'.
  assert (HF : Permutation F F') by (apply Permutation_filter; exact H).
  assert (Hs : forall key val,
             groupby_label key val F = groupby_label key val F').
  { intros key val.
    apply (groupby_sum_perm String.leb String.leb_antisym string_leb_trans
             String.eqb String.eqb_eq String.leb_total). exact HF. }
  assert (Hp : forall k1 k2 val,
             groupby_pair k1 k2 val F = groupby_pair k1 k2 val F').
  { intros k1 k2 val.
    apply (groupby_sum_perm pair_leb pair_leb_antisym pair_leb_trans
             pair_eqb pair_eqb_eq pair_leb_total). exact HF. }
  assert (Hy : year_sales F = year_sales F').
  { apply (groupby_sum_perm Z.leb Z_leb_antisym Z_leb_trans
             Z.eqb Z.eqb_eq Z_leb_total). exact HF. }
  split; [exact HF|].
  split.
  { unfold draw_kpis. cbn [total_orders].
    apply nunique_perm, Permutation_map. exact HF. }
  split.
  { unfold region_sales, cat_sales, ship_sales, heat_data.
    rewrite Hy, !Hs, !Hp. auto. }
  intros _ _ _.
  split.
  { unfold draw_kpis.
    rewrite (sum_skipna_perm _ _ (Permutation_map Sales HF)).
    rewrite (sum_skipna_perm _ _ (Permutation_map Profit HF)).
    rewrite (mean_perm _ _ (Permutation_map Shipping_Cost HF)).
    rewrite (nunique_perm _ _ (Permutation_map Order_ID HF)).
    reflexivity. }
  split; [apply Hs|].
  split; [exact Hy|].
  split; [unfold top_states, state_profit; rewrite Hs; reflexivity|].
  split; [apply Hp|].
  split; [apply Hs|].
  split; [apply Hp|].
  unfold heat_pivot, heat_data. rewrite Hp. reflexivity.
Qed.

Lemma views_ignore_row_order_witness :
  Permutation three_lines (rev three_lines) /\
  exact_amounts (map Sales (filtered_df three_lines all_labels)) /\
  region_sales (filtered_df three_lines all_labels)
  = region_sales (filtered_df (rev three_lines) all_labels).
Proof.
  assert (He : forall col : Row -> option Z,
             In col [Sales; Profit; Shipping_Cost] ->
             exact_amounts (map col (filtered_df three_lines all_labels))).
  { intros col [<-|[<-|[<-|[]]]]; vm_compute; discriminate. }
  split; [apply Permutation_rev|].
  split; [apply He; simpl; auto|].
  destruct (@views_ignore_row_order stable_kind three_lines
              (rev three_lines) all_labels (Permutation_rev three_lines))
    as [_ [_ [_ Hv]]].
  apply Hv; apply He; simpl; auto.
Defined.
